(** * Fast-align pipeline: a shallow embedding of
    [src/pipelines/aligners/fast_align_pipeline.py]

  The development follows the Python class [FastAlignPipeline]:

  - [PyStr]    : the fragment of Python's [str] used by the pipeline
                 ([strip], [split], [split('-')], [int]) on text whose
                 code points are below 256;
  - [PyFloat]  : binary64 arithmetic as the interpreter performs it
                 (true division of ints, [round(x, 4)]);
  - [Parser]   : [parse_alignment_output];
  - [Scorer]   : [calculate_alignment_score];
  - [Pipeline] : [run_fast_align], [store_alignments], [run_pipeline],
                 over an abstract outside world (corpus database, aligner
                 binary) and with a chronological trace of the effects. *)

From Stdlib Require Import Ascii String.
From Stdlib Require Import ZArith List Bool Lia.
From Stdlib Require Import Floats.
Import ListNotations.

Set Implicit Arguments.
Set Warnings "-inexact-float".
Local Open Scope Z_scope.

(** ** Results of fallible code *)

(** The exceptions the pipeline can meet. *)
Inductive exn : Type :=
| ValueError
| IndexError
| FileNotFoundError
| OSError
| DatabaseError
| UnicodeDecodeError.

(** A computation either returns a value or raises. *)
Inductive Result (A : Type) : Type :=
| Ok (a : A)
| Raise (e : exn).
Arguments Ok {A} a.
Arguments Raise {A} e.

Definition bind {A B} (r : Result A) (k : A -> Result B) : Result B :=
  match r with
  | Ok a => k a
  | Raise e => Raise e
  end.

Declare Scope result_scope.
Delimit Scope result_scope with result.
Notation "x <- r ;; k" := (bind r (fun x => k))
  (at level 61, r at next level, right associativity) : result_scope.
Local Open Scope result_scope.

(** A [for] loop that builds a list and stops at the first exception. *)
Fixpoint mapM {A B} (f : A -> Result B) (l : list A) : Result (list B) :=
  match l with
  | [] => Ok []
  | x :: r =>
      y <- f x ;;
      ys <- mapM f r ;;
      Ok (y :: ys)
  end.

(** ** Python strings *)

Module PyStr.

(** A [str] whose code points are all below 256. *)
Definition str := list ascii.

Definition lit (s : string) : str := list_ascii_of_string s.

Definition code (c : ascii) : Z := Z.of_nat (nat_of_ascii c).

(** [str.isspace] on one character: TAB..CR, FS..US, SPACE, NEL, NBSP. *)
Definition is_space (c : ascii) : bool :=
  let n := code c in
  ((9 <=? n) && (n <=? 13)) || ((28 <=? n) && (n <=? 32))
  || (n =? 133) || (n =? 160).

Definition is_digit (c : ascii) : bool :=
  let n := code c in (48 <=? n) && (n <=? 57).

Definition digit_value (c : ascii) : Z := code c - 48.

Definition is_char (a c : ascii) : bool := Ascii.eqb a c.

Fixpoint lstrip (s : str) : str :=
  match s with
  | [] => []
  | c :: r => if is_space c then lstrip r else s
  end.

Definition rstrip (s : str) : str := rev (lstrip (rev s)).

(** [s.strip()] *)
Definition strip (s : str) : str := rstrip (lstrip s).

(** [s.split()]: maximal runs of non-whitespace characters.  [cur] holds
    the current run, newest character first. *)
Fixpoint split_ws_from (cur : str) (s : str) : list str :=
  match s with
  | [] => match cur with [] => [] | _ => [rev cur] end
  | c :: r =>
      if is_space c
      then match cur with
           | [] => split_ws_from [] r
           | _ => rev cur :: split_ws_from [] r
           end
      else split_ws_from (c :: cur) r
  end.

Definition split_ws (s : str) : list str := split_ws_from [] s.

(** [s.split(sep)] for a one-character separator: [n] separators give
    [n + 1] parts, empty parts included. *)
Fixpoint split_on_from (sep : ascii) (cur : str) (s : str) : list str :=
  match s with
  | [] => [rev cur]
  | c :: r =>
      if is_char sep c
      then rev cur :: split_on_from sep [] r
      else split_on_from sep (c :: cur) r
  end.

Definition split_on (sep : ascii) (s : str) : list str :=
  split_on_from sep [] s.

(** The digits of a decimal literal after the first one: single
    underscores are allowed between digits. [us] tells that the previous
    character was an underscore. *)
Fixpoint int_digits (acc : Z) (us : bool) (s : str) : option Z :=
  match s with
  | [] => if us then None else Some acc
  | c :: r =>
      if is_digit c then int_digits (10 * acc + digit_value c) false r
      else if is_char "_" c
           then (if us then None else int_digits acc true r)
           else None
  end.

(** The interpreter's cap on the number of digits of a decimal literal
    ([sys.get_int_max_str_digits()], 4300 unless it is set otherwise). *)
Definition int_max_str_digits : Z := 4300.

(** The digits of a literal, underscores left aside, are counted first: a
    literal with more digits than the cap is refused. *)
Definition int_unsigned (s : str) : option Z :=
  match s with
  | [] => None
  | c :: r =>
      if is_digit c
      then if Z.of_nat (length (filter is_digit s)) <=? int_max_str_digits
           then int_digits (digit_value c) false r
           else None
      else None
  end.

(** [int(s)] in base ten; [None] stands for [ValueError]. *)
Definition int (s : str) : option Z :=
  match strip s with
  | [] => None
  | c :: r =>
      if is_char "+" c then int_unsigned r
      else if is_char "-" c then option_map Z.opp (int_unsigned r)
      else int_unsigned (c :: r)
  end.

Definition newline : ascii := "010"%char.

(** Universal newlines of a text-mode [open]: CR LF and a lone CR are
    read as LF. *)
Fixpoint universal_newlines (s : str) : str :=
  match s with
  | [] => []
  | c :: r =>
      if is_char "013" c
      then match r with
           | d :: r' =>
               if is_char "010" d then "010"%char :: universal_newlines r'
               else "010"%char :: universal_newlines r
           | [] => ["010"%char]
           end
      else c :: universal_newlines r
  end.

(** Iterating a text file: every line keeps its terminator; a last line
    without terminator is a line when it is not empty. *)
Fixpoint lines_from (cur : str) (s : str) : list str :=
  match s with
  | [] => match cur with [] => [] | _ => [rev cur] end
  | c :: r =>
      if is_char "010" c
      then rev (c :: cur) :: lines_from [] r
      else lines_from (c :: cur) r
  end.

Definition file_lines (content : str) : list str :=
  lines_from [] (universal_newlines content).

End PyStr.
Import PyStr.

(** ** The alignment parser *)

Module Parser.

(** [src, tgt = pair.split('-')] then [(int(src), int(tgt))]. *)
Definition parse_pair (tok : str) : Result (Z * Z) :=
  match split_on "-" tok with
  | [src; tgt] =>
      match int src with
      | None => Raise ValueError
      | Some i =>
          match int tgt with
          | None => Raise ValueError
          | Some j => Ok (i, j)
          end
      end
  | _ => Raise ValueError
  end.

(** The body of the loop over the lines of the file. *)
Definition parse_line (line : str) : Result (list (Z * Z)) :=
  match strip line with
  | [] => Ok []
  | l => mapM parse_pair (split_ws l)
  end.

(** [parse_alignment_output], on the text of the alignment file. *)
Definition parse_alignment_output (content : str)
  : Result (list (list (Z * Z))) :=
  mapM parse_line (file_lines content).

End Parser.
Import Parser.

(** ** Binary64 arithmetic *)

Module PyFloat.

(** [float(n)] for an [int]: the nearest binary64 value. *)
Definition of_int (n : Z) : float :=
  SF2Prim (binary_normalize prec emax n 0 false).

(** [a / b] on two [int]s ([b] not zero).  The interpreter rounds the exact
    quotient once; this is the quotient of the two conversions, which is
    the same value as long as both operands are below [2^53] in absolute
    value, as lengths of lists are. *)
Definition true_div (a b : Z) : float :=
  PrimFloat.div (of_int a) (of_int b).

(** [min(x, y)] on floats: the first argument unless the second is
    smaller. *)
Definition fmin (x y : float) : float :=
  if PrimFloat.ltb y x then y else x.

(** Rounding a non-negative rational [n / d] to the nearest integer, ties
    to even. *)
Definition round_half_even (n d : Z) : Z :=
  let q := n / d in
  let r := n mod d in
  match 2 * r ?= d with
  | Lt => q
  | Gt => q + 1
  | Eq => if Z.even q then q else q + 1
  end.

(** [round(x, 4)]: the exact value of [x] is rounded to four decimals, ties
    to even, and the decimal is read back as the nearest binary64 value
    (the quotient of the scaled integer by [10^4], exact while that
    integer is below [2^53]).  An integral [x] (exponent not negative), an
    infinity and a NaN are returned as they are. *)
Definition round4 (x : float) : float :=
  match Prim2SF x with
  | S754_finite sgn m e =>
      if 0 <=? e then x
      else
        let k := round_half_even (Zpos m * 10000) (2 ^ (- e)) in
        let r := PrimFloat.div (of_int k) (of_int 10000) in
        if sgn then PrimFloat.opp r else r
  | _ => x
  end.

End PyFloat.
Import PyFloat.

(** ** The scorer *)

Module Scorer.

(** [len(set(a[0] for a in alignments))] *)
Definition aligned_src (alignments : list (Z * Z)) : Z :=
  Z.of_nat (length (nodup Z.eq_dec (map fst alignments))).

(** [calculate_alignment_score] *)
Definition calculate_alignment_score
  (alignments : list (Z * Z)) (src_length tgt_length : Z) : float :=
  match alignments with
  | [] => 0%float
  | _ :: _ =>
      if (src_length =? 0) || (tgt_length =? 0) then 0%float
      else
        let coverage := true_div (aligned_src alignments) src_length in
        let density := true_div (Z.of_nat (length alignments)) src_length in
        let density_score := (fmin density 2 / 2)%float in
        let length_ratio :=
          true_div (Z.min src_length tgt_length)
                   (Z.max src_length tgt_length) in
        let score :=
          (0.5 * coverage + 0.3 * density_score + 0.2 * length_ratio)%float in
        round4 score
  end.

End Scorer.
Import Scorer.

(** ** The pipeline *)

Module Pipeline.

(** *** Data *)

(** A row of [get_unaligned_sentence_pairs]; identifiers are opaque. *)
Record SentencePair : Type := {
  purepecha_sentence_id : Z;
  spanish_sentence_id : Z;
  purepecha_text : str;
  spanish_text : str
}.

(** An entry of [word_alignments['forward']]. *)
Record ForwardEntry : Type := {
  src_idx : Z;
  tgt_idx : Z;
  src_token : str;
  tgt_token : str
}.

(** [word_alignments]; a backward entry is [(src_idx, tgt_idx)]. *)
Record WordAlignments : Type := {
  forward : list ForwardEntry;
  backward : list (Z * Z)
}.

Inductive Quality : Type := auto_aligned | raw.

(** The keyword arguments of [insert_alignment]. *)
Record AlignmentRecord : Type := {
  rec_purepecha_sentence_id : Z;
  rec_spanish_sentence_id : Z;
  alignment_method : str;
  alignment_score : float;
  word_alignments : WordAlignments;
  quality_status : Quality
}.

(** What [subprocess.run] meets: the process ran to an exit status and its
    error stream is text, or it ran to an exit status and the bytes of its
    error stream do not decode, or it could not be launched
    ([FileNotFoundError], [OSError]). *)
Inductive ProcOutcome : Type :=
| Exited (returncode : Z) (stdout stderr : str)
| Undecodable (returncode : Z) (stdout : str)
| NotLaunched (e : exn).

Inductive RunStatus : Type := created | running | completed | failed.

(** Modelled from the spec: the run tracker of [utils.database]
    ([PipelineRunTracker]), whose code is not in the repository's sources.
    A run carries a status and cumulative counts; a progress update
    overwrites the counts with the totals it is given; completion records
    the terminal status. *)
Record Tracker : Type := {
  status : RunStatus;
  items_processed : Z;
  items_succeeded : Z;
  items_failed : Z
}.

(** Modelled from the spec: [start_run] opens a run in status [running]
    with its counts at zero. *)
Definition start_run : Tracker :=
  {| status := running;
     items_processed := 0; items_succeeded := 0; items_failed := 0 |}.

(** Modelled from the spec: [update_progress] overwrites the counts. *)
Definition update_progress (t : Tracker) (processed succeeded failed : Z)
  : Tracker :=
  {| status := status t;
     items_processed := processed;
     items_succeeded := succeeded;
     items_failed := failed |}.

(** Modelled from the spec: [complete_run] records the terminal status. *)
Definition complete_run (t : Tracker) (s : RunStatus) : Tracker :=
  {| status := s;
     items_processed := items_processed t;
     items_succeeded := items_succeeded t;
     items_failed := items_failed t |}.

(** The effects of a run, in the order they happen. *)
Inductive Event : Type :=
| EvStart
| EvBatch (n : Z) (pairs : list SentencePair)
| EvAligner (reverse : bool) (o : ProcOutcome)
| EvLogError (msg : str)
| EvInsert (r : AlignmentRecord)
| EvStoreFailed (e : exn)
| EvProgress (processed succeeded failed : Z)
| EvComplete (s : RunStatus).

(** The outside world: the corpus database and the aligner binary, whose
    calls take a world to the next one.  [fast_align_process w input
    reverse] is [subprocess.run] of the aligner on the input file, with
    [-r] when [reverse]; [insert_alignment] may raise.  Fetching a batch,
    the tracker and the temporary files are taken not to fail. *)
Class External (World : Type) : Type := {
  get_unaligned_sentence_pairs : World -> Z -> list SentencePair * World;
  insert_alignment : World -> AlignmentRecord -> Result unit * World;
  fast_align_process : World -> str -> bool -> ProcOutcome * World
}.

(** *** Pure parts *)

(** [prepare_alignment_input]: the text written to the input file. *)
Definition prepare_alignment_input (sentence_pairs : list SentencePair)
  : str :=
  concat (map (fun pair =>
                 purepecha_text pair ++ lit " ||| " ++ spanish_text pair
                 ++ [newline])
              sentence_pairs).

(** [l[i]], negative indices counting from the end. *)
Definition py_index {A} (l : list A) (i : Z) : Result A :=
  let n := Z.of_nat (length l) in
  let j := if i <? 0 then i + n else i in
  if (0 <=? j) && (j <? n)
  then match nth_error l (Z.to_nat j) with
       | Some x => Ok x
       | None => Raise IndexError
       end
  else Raise IndexError.

(** The comprehension that builds [word_alignments['forward']]. *)
Fixpoint forward_entries (src_tokens tgt_tokens : list str)
  (fwd_align : list (Z * Z)) : Result (list ForwardEntry) :=
  match fwd_align with
  | [] => Ok []
  | (src, tgt) :: rest =>
      if (src <? Z.of_nat (length src_tokens))
         && (tgt <? Z.of_nat (length tgt_tokens))
      then
        s <- py_index src_tokens src ;;
        t <- py_index tgt_tokens tgt ;;
        es <- forward_entries src_tokens tgt_tokens rest ;;
        Ok ({| src_idx := src; tgt_idx := tgt;
               src_token := s; tgt_token := t |} :: es)
      else forward_entries src_tokens tgt_tokens rest
  end.

(** The comprehension that builds [word_alignments['backward']]. *)
Definition backward_entries (bwd_align : list (Z * Z)) : list (Z * Z) :=
  map (fun '(tgt, src) => (src, tgt)) bwd_align.

(** ['auto_aligned' if score >= 0.7 else 'raw'] *)
Definition quality_of (score : float) : Quality :=
  if PrimFloat.leb 0.7 score then auto_aligned else raw.

(** The body of the [try] of [store_alignments] up to the call of
    [insert_alignment]: the record handed to the database. *)
Definition build_record (pair : SentencePair)
  (fwd_align bwd_align : list (Z * Z)) : Result AlignmentRecord :=
  let src_tokens := split_ws (purepecha_text pair) in
  let tgt_tokens := split_ws (spanish_text pair) in
  let score :=
    calculate_alignment_score fwd_align
      (Z.of_nat (length src_tokens)) (Z.of_nat (length tgt_tokens)) in
  fwd <- forward_entries src_tokens tgt_tokens fwd_align ;;
  Ok {| rec_purepecha_sentence_id := purepecha_sentence_id pair;
        rec_spanish_sentence_id := spanish_sentence_id pair;
        alignment_method := lit "fast_align";
        alignment_score := score;
        word_alignments :=
          {| forward := fwd; backward := backward_entries bwd_align |};
        quality_status := quality_of score |}.

(** [zip] of three lists. *)
Definition zip3 {A B C} (a : list A) (b : list B) (c : list C)
  : list (A * B * C) :=
  combine (combine a b) c.

(** [run_fast_align] given what [subprocess.run] met: the events, the
    value returned or the exception that escapes, and the text left in the
    output file.  Only [CalledProcessError] is caught; with [text=True]
    the captured error stream is decoded before the exit status is looked
    at, and a stream that does not decode raises [UnicodeDecodeError]. *)
Definition run_fast_align_on (reverse : bool) (o : ProcOutcome)
  : list Event * Result bool * str :=
  match o with
  | Exited rc out err =>
      if rc =? 0
      then ([EvAligner reverse o], Ok true, out)
      else ([EvAligner reverse o;
             EvLogError (lit "fast_align failed: " ++ err)],
            Ok false, out)
  | Undecodable _ out => ([EvAligner reverse o], Raise UnicodeDecodeError, out)
  | NotLaunched e => ([EvAligner reverse o], Raise e, [])
  end.

Section WithWorld.

Context {World : Type} {ext : External World}.

(** [run_fast_align] *)
Definition run_fast_align (w : World) (input : str) (reverse : bool)
  : list Event * Result bool * str * World :=
  let '(o, w') := fast_align_process w input reverse in
  (run_fast_align_on reverse o, w').

(** The loop of [store_alignments], with its two counters. *)
Fixpoint store_loop (w : World)
  (items : list (SentencePair * list (Z * Z) * list (Z * Z)))
  (successful failed_count : Z) : list Event * (Z * Z) * World :=
  match items with
  | [] => ([], (successful, failed_count), w)
  | (sp, fwd_align, bwd_align) :: rest =>
      match build_record sp fwd_align bwd_align with
      | Raise e =>
          let '(evs, counts, w') :=
            store_loop w rest successful (failed_count + 1) in
          (EvStoreFailed e :: evs, counts, w')
      | Ok r =>
          match insert_alignment w r with
          | (Ok _, w1) =>
              let '(evs, counts, w') :=
                store_loop w1 rest (successful + 1) failed_count in
              (EvInsert r :: evs, counts, w')
          | (Raise e, w1) =>
              let '(evs, counts, w') :=
                store_loop w1 rest successful (failed_count + 1) in
              (EvStoreFailed e :: evs, counts, w')
          end
      end
  end.

(** [store_alignments]: events, [(successful, failed)], world. *)
Definition store_alignments (w : World) (sentence_pairs : list SentencePair)
  (forward_alignments backward_alignments : list (list (Z * Z)))
  : list Event * (Z * Z) * World :=
  store_loop w (zip3 sentence_pairs forward_alignments backward_alignments)
             0 0.

(** The local variables of [run_pipeline] and the tracker. *)
Record RunState : Type := {
  world : World;
  batch_num : Z;
  total_aligned : Z;
  total_failed : Z;
  tracker : Tracker
}.

(** How one turn of the [while True] loop ends. *)
Inductive Step : Type :=
| Break (st : RunState)
| Continue (st : RunState)
| Throw (e : exn) (st : RunState).

Definition step_state (s : Step) : RunState :=
  match s with
  | Break st | Continue st | Throw _ st => st
  end.

(** [max_batches and batch_num >= max_batches] *)
Definition cap_reached (max_batches : option Z) (n : Z) : bool :=
  match max_batches with
  | None => false
  | Some m => negb (m =? 0) && (m <=? n)
  end.

Variable batch_size : Z.
Variable max_batches : option Z.

(** [batch_num += 1], after the database was asked for a batch. *)
Definition begin_batch (st : RunState) (w : World) : RunState :=
  {| world := w; batch_num := batch_num st + 1;
     total_aligned := total_aligned st;
     total_failed := total_failed st;
     tracker := tracker st |}.

Definition set_world (st : RunState) (w : World) : RunState :=
  {| world := w; batch_num := batch_num st;
     total_aligned := total_aligned st;
     total_failed := total_failed st;
     tracker := tracker st |}.

(** [total_failed += len(sentence_pairs)] *)
Definition count_failed (st : RunState) (size : Z) : RunState :=
  {| world := world st; batch_num := batch_num st;
     total_aligned := total_aligned st;
     total_failed := total_failed st + size;
     tracker := tracker st |}.

(** [total_aligned += successful], [total_failed += failed], then
    [tracker.update_progress] with the new totals. *)
Definition record_batch (st : RunState) (successful failed_count : Z)
  : RunState :=
  let aligned := total_aligned st + successful in
  let failed_total := total_failed st + failed_count in
  {| world := world st; batch_num := batch_num st;
     total_aligned := aligned;
     total_failed := failed_total;
     tracker := update_progress (tracker st)
                  (aligned + failed_total) aligned failed_total |}.

Definition progress_event (st : RunState) : Event :=
  EvProgress (total_aligned st + total_failed st)
             (total_aligned st) (total_failed st).

(** One turn of the loop of [run_pipeline]. *)
Definition loop_iteration (st : RunState) : list Event * Step :=
  if cap_reached max_batches (batch_num st) then ([], Break st)
  else
    let '(sentence_pairs, w1) :=
      get_unaligned_sentence_pairs (world st) batch_size in
    let st1 := begin_batch st w1 in
    match sentence_pairs with
    | [] => ([], Break st1)
    | _ :: _ =>
        let size := Z.of_nat (length sentence_pairs) in
        let input := prepare_alignment_input sentence_pairs in
        let batch := EvBatch (batch_num st1) sentence_pairs in
        let '(ev_f, res_f, forward_output, w2) :=
          run_fast_align w1 input false in
        match res_f with
        | Raise e => (batch :: ev_f, Throw e (set_world st1 w2))
        | Ok false =>
            (batch :: ev_f ++ [EvLogError (lit "Forward alignment failed")],
             Continue (count_failed (set_world st1 w2) size))
        | Ok true =>
            let '(ev_b, res_b, backward_output, w3) :=
              run_fast_align w2 input true in
            match res_b with
            | Raise e => (batch :: ev_f ++ ev_b, Throw e (set_world st1 w3))
            | Ok false =>
                (batch :: ev_f ++ ev_b
                   ++ [EvLogError (lit "Backward alignment failed")],
                 Continue (count_failed (set_world st1 w3) size))
            | Ok true =>
                match parse_alignment_output forward_output with
                | Raise e =>
                    (batch :: ev_f ++ ev_b, Throw e (set_world st1 w3))
                | Ok forward_alignments =>
                    match parse_alignment_output backward_output with
                    | Raise e =>
                        (batch :: ev_f ++ ev_b, Throw e (set_world st1 w3))
                    | Ok backward_alignments =>
                        let '(ev_s, (successful, failed_count), w4) :=
                          store_alignments w3 sentence_pairs
                            forward_alignments backward_alignments in
                        let st2 :=
                          record_batch (set_world st1 w4)
                                       successful failed_count in
                        (batch :: ev_f ++ ev_b ++ ev_s
                           ++ [progress_event st2],
                         Continue st2)
                    end
                end
            end
        end
    end.

(** How a run ends: the loop was left and the run finalized, an exception
    escaped [run_pipeline], or the turns allotted ran out. *)
Inductive Outcome : Type :=
| Finished (st : RunState)
| Raised (e : exn) (st : RunState)
| OutOfFuel (st : RunState).

(** The [while True] loop, for at most [fuel] turns. *)
Fixpoint run_loop (fuel : nat) (st : RunState) : list Event * Outcome :=
  match fuel with
  | O => ([], OutOfFuel st)
  | S k =>
      match loop_iteration st with
      | (evs, Break st') => (evs, Finished st')
      | (evs, Throw e st') => (evs, Raised e st')
      | (evs, Continue st') =>
          let '(evs', o) := run_loop k st' in (evs ++ evs', o)
      end
  end.

Definition initial_state (w : World) : RunState :=
  {| world := w; batch_num := 0; total_aligned := 0; total_failed := 0;
     tracker := start_run |}.

(** [tracker.complete_run(status='completed')] *)
Definition finalize (st : RunState) : RunState :=
  {| world := world st; batch_num := batch_num st;
     total_aligned := total_aligned st;
     total_failed := total_failed st;
     tracker := complete_run (tracker st) completed |}.

(** [run_pipeline]: the run is started, the loop runs, and when the loop
    is left the run is completed. *)
Definition run_pipeline (fuel : nat) (w : World) : list Event * Outcome :=
  match run_loop fuel (initial_state w) with
  | (evs, Finished st) =>
      (EvStart :: evs ++ [EvComplete completed], Finished (finalize st))
  | (evs, o) => (EvStart :: evs, o)
  end.

Definition final_state (o : Outcome) : RunState :=
  match o with
  | Finished st | Raised _ st | OutOfFuel st => st
  end.

End WithWorld.

End Pipeline.
Import Pipeline.

(** ** The aligner's output grammar *)

Module Grammar.

(** The leading digits of a string and what follows them. *)
Fixpoint span_digits (s : str) : str * str :=
  match s with
  | [] => ([], [])
  | c :: r =>
      if is_digit c
      then let '(ds, rest) := span_digits r in (c :: ds, rest)
      else ([], s)
  end.

Definition nonempty {A} (l : list A) : bool :=
  match l with [] => false | _ :: _ => true end.

(** A string short enough for [int]. *)
Definition within_cap (ds : str) : bool :=
  Z.of_nat (length ds) <=? int_max_str_digits.

(** A token of the form [<nonneg-int>-<nonneg-int>], neither number having
    more digits than [int] reads. *)
Definition is_index_pair (tok : str) : bool :=
  let '(a, rest) := span_digits tok in
  match rest with
  | c :: b =>
      is_char "-" c && nonempty a && nonempty b && forallb is_digit b
      && within_cap a && within_cap b
  | [] => false
  end.

(** A line of whitespace-separated index pairs (none on a blank line). *)
Definition well_formed_line (line : str) : bool :=
  forallb is_index_pair (split_ws line).

(** An output file all of whose lines are well formed. *)
Definition well_formed_output (content : str) : bool :=
  forallb well_formed_line (file_lines content).


(** A malformed token: the separator is missing, there is more than one,
    or a component is not a number. *)
Definition separators (tok : str) : nat :=
  length (filter (is_char "-") tok).

Definition not_a_number (s : str) : bool :=
  match int s with None => true | Some _ => false end.

Definition malformed (tok : str) : bool :=
  negb (Nat.eqb (separators tok) 1)
  || existsb not_a_number (split_on "-" tok).

End Grammar.
Import Grammar.

(** ** Observing a trace *)

Module Trace.

Definition is_insert (ev : Event) : bool :=
  match ev with EvInsert _ => true | _ => false end.

Definition is_progress (ev : Event) : bool :=
  match ev with EvProgress _ _ _ => true | _ => false end.

(** The number of alignment records inserted by the events of [t]. *)
Definition records_inserted (t : list Event) : Z :=
  Z.of_nat (length (filter is_insert t)).

(** The number of pairs [store_alignments] gave up on in [t]. *)
Definition store_failures (t : list Event) : Z :=
  Z.of_nat (length (filter (fun ev => match ev with
                                      | EvStoreFailed _ => true
                                      | _ => false
                                      end) t)).

(** The tracker's [items_succeeded] after the events of [t], when it was
    [c] before them: the figure of the last progress update. *)
Definition succeeded_from (c : Z) (t : list Event) : Z :=
  fold_left (fun acc ev => match ev with
                           | EvProgress _ s _ => s
                           | _ => acc
                           end) t c.

(** The tracker's [items_succeeded] after the events of [t] of a run. *)
Definition tracker_succeeded (t : list Event) : Z := succeeded_from 0 t.

(** An event that opens a batch or closes the run. *)
Definition is_boundary (ev : Event) : bool :=
  match ev with
  | EvBatch _ _ | EvComplete _ => true
  | _ => false
  end.

(** What remains of a trace at a batch boundary: nothing, or a batch that
    begins, or the completion of the run. *)
Definition at_boundary (rest : list Event) : bool :=
  match rest with
  | [] => true
  | ev :: _ => is_boundary ev
  end.

(** An aligner invocation of [t] exited with a non-zero status. *)
Definition aligner_failed (t : list Event) : bool :=
  existsb (fun ev => match ev with
                     | EvAligner _ (Exited rc _ _) => negb (rc =? 0)
                     | EvAligner _ (Undecodable rc _) => negb (rc =? 0)
                     | _ => false
                     end) t.

(** An output file with a malformed token on one of its lines. *)
Definition has_malformed (content : str) : bool :=
  existsb (fun line => existsb malformed (split_ws line))
          (file_lines content).

(** The events of [run_fast_align] and of the two failure messages of the
    loop. *)
Definition is_aligner_event (ev : Event) : bool :=
  match ev with
  | EvAligner _ _ | EvLogError _ => true
  | _ => false
  end.

(** A record built by [store_alignments] from some sentence pair and its
    two alignments. *)
Definition built (r : AlignmentRecord) : Prop :=
  exists sp fa ba, build_record sp fa ba = Ok r.

(** The events of [store_alignments]. *)
Definition store_event (ev : Event) : Prop :=
  match ev with
  | EvInsert r => built r
  | EvStoreFailed _ => True
  | _ => False
  end.

(** The events that follow the opening of a batch. *)
Definition batch_event (ev : Event) : Prop :=
  match ev with
  | EvInsert r => built r
  | EvAligner _ _ | EvLogError _ | EvStoreFailed _ | EvProgress _ _ _ => True
  | EvStart | EvBatch _ _ | EvComplete _ => False
  end.

(** The events of the loop: no start and no completion of the run, and
    every insertion is of a record that was built. *)
Definition loop_event (ev : Event) : Prop :=
  match ev with
  | EvInsert r => built r
  | EvStart | EvComplete _ => False
  | _ => True
  end.

End Trace.
Import Trace.

(** ** The shape of one turn of the loop *)

Section IterationCases.

Context {World : Type} {ext : External World}.
Variable batch_size : Z.
Variable max_batches : option Z.

(** What happens to a batch that was fetched, from the state [st1] in which
    it begins. *)
Inductive BatchCase (st1 : RunState) (pairs : list SentencePair)
  : list Event -> Step -> Prop :=
| BatchForwardRaised ev_f e out_f w2
    (Hf : run_fast_align (world st1) (prepare_alignment_input pairs) false
          = (ev_f, Raise e, out_f, w2)) :
    BatchCase st1 pairs ev_f (Throw e (set_world st1 w2))
| BatchForwardFailed ev_f out_f w2
    (Hf : run_fast_align (world st1) (prepare_alignment_input pairs) false
          = (ev_f, Ok false, out_f, w2)) :
    BatchCase st1 pairs
      (ev_f ++ [EvLogError (lit "Forward alignment failed")])
      (Continue (count_failed (set_world st1 w2)
                              (Z.of_nat (length pairs))))
| BatchBackwardRaised ev_f out_f w2 ev_b e out_b w3
    (Hf : run_fast_align (world st1) (prepare_alignment_input pairs) false
          = (ev_f, Ok true, out_f, w2))
    (Hb : run_fast_align w2 (prepare_alignment_input pairs) true
          = (ev_b, Raise e, out_b, w3)) :
    BatchCase st1 pairs (ev_f ++ ev_b) (Throw e (set_world st1 w3))
| BatchBackwardFailed ev_f out_f w2 ev_b out_b w3
    (Hf : run_fast_align (world st1) (prepare_alignment_input pairs) false
          = (ev_f, Ok true, out_f, w2))
    (Hb : run_fast_align w2 (prepare_alignment_input pairs) true
          = (ev_b, Ok false, out_b, w3)) :
    BatchCase st1 pairs
      (ev_f ++ ev_b ++ [EvLogError (lit "Backward alignment failed")])
      (Continue (count_failed (set_world st1 w3)
                              (Z.of_nat (length pairs))))
| BatchParseRaised ev_f out_f w2 ev_b out_b w3 e
    (Hf : run_fast_align (world st1) (prepare_alignment_input pairs) false
          = (ev_f, Ok true, out_f, w2))
    (Hb : run_fast_align w2 (prepare_alignment_input pairs) true
          = (ev_b, Ok true, out_b, w3))
    (Hparse : parse_alignment_output out_f = Raise e
              \/ (exists fa, parse_alignment_output out_f = Ok fa)
                 /\ parse_alignment_output out_b = Raise e) :
    BatchCase st1 pairs (ev_f ++ ev_b) (Throw e (set_world st1 w3))
| BatchStored ev_f out_f w2 ev_b out_b w3 fa ba ev_s successful failed_count
    w4
    (Hf : run_fast_align (world st1) (prepare_alignment_input pairs) false
          = (ev_f, Ok true, out_f, w2))
    (Hb : run_fast_align w2 (prepare_alignment_input pairs) true
          = (ev_b, Ok true, out_b, w3))
    (Hpf : parse_alignment_output out_f = Ok fa)
    (Hpb : parse_alignment_output out_b = Ok ba)
    (Hs : store_alignments w3 pairs fa ba
          = (ev_s, (successful, failed_count), w4)) :
    BatchCase st1 pairs
      (ev_f ++ ev_b ++ ev_s
         ++ [progress_event
               (record_batch (set_world st1 w4) successful failed_count)])
      (Continue (record_batch (set_world st1 w4) successful failed_count)).

(** What one turn of the loop does from [st]. *)
Inductive IterCase (st : RunState) : list Event -> Step -> Prop :=
| IterCap :
    cap_reached max_batches (batch_num st) = true ->
    IterCase st [] (Break st)
| IterExhausted w1 :
    cap_reached max_batches (batch_num st) = false ->
    get_unaligned_sentence_pairs (world st) batch_size = ([], w1) ->
    IterCase st [] (Break (begin_batch st w1))
| IterBatch sp pairs w1 evs step :
    cap_reached max_batches (batch_num st) = false ->
    get_unaligned_sentence_pairs (world st) batch_size = (sp :: pairs, w1) ->
    BatchCase (begin_batch st w1) (sp :: pairs) evs step ->
    IterCase st (EvBatch (batch_num st + 1) (sp :: pairs) :: evs) step.

End IterationCases.

(** ** Leaving the loop *)

Section LoopExits.

Context {World : Type} {ext : External World}.
Variable batch_size : Z.
Variable max_batches : option Z.

(** [LoopLeft n st evs st']: from [st] the [while True] loop is left at its
    [n]-th turn, by one of its two [break]s, in state [st'], the turns
    having had the effects [evs]. *)
Inductive LoopLeft : nat -> RunState -> list Event -> RunState -> Prop :=
| LeftBreak st evs st'
    (Hturn : loop_iteration batch_size max_batches st = (evs, Break st')) :
    LoopLeft 1 st evs st'
| LeftContinue n st evs st1 evs' st'
    (Hturn : loop_iteration batch_size max_batches st = (evs, Continue st1))
    (Hrest : LoopLeft n st1 evs' st') :
    LoopLeft (S n) st (evs ++ evs') st'.

End LoopExits.

(** ** A scripted world *)

Module Scripted.

(** The batches the database still has to hand out. *)
Definition World : Type := list (list SentencePair).

Definition fetch (w : World) (limit : Z) : list SentencePair * World :=
  match w with
  | [] => ([], [])
  | b :: r => (b, r)
  end.

(** A world whose aligner always ends as [forward_run] (or [backward_run]
    with [-r]) and whose database answers every insertion with
    [insertion]. *)
Definition ext (forward_run backward_run : ProcOutcome)
  (insertion : Result unit) : External World :=
  {| get_unaligned_sentence_pairs := fetch;
     insert_alignment := fun w _ => (insertion, w);
     fast_align_process :=
       fun w _ reverse =>
         (if reverse then backward_run else forward_run, w) |}.

Definition sentence (id : Z) (purepecha spanish : string) : SentencePair :=
  {| purepecha_sentence_id := id; spanish_sentence_id := id;
     purepecha_text := lit purepecha; spanish_text := lit spanish |}.

Definition exits (rc : Z) (out : string) : ProcOutcome :=
  Exited rc (lit out ++ [newline]) (lit "fast_align: log").

(** The scenario of a three-token sentence aligned with a two-token one. *)
Definition spec_pair : SentencePair := sentence 1 "a b c" "x y".

Definition spec_world : External World :=
  ext (exits 0 "0-0 1-1 2-1") (exits 0 "0-0 1-1 1-2") (Ok tt).

Definition spec_run : list Event * Outcome :=
  run_pipeline (ext := spec_world) 1000 None 5 [[spec_pair]].

(** A one-token pair whose forward alignment names only tokens that do
    not exist. *)
Definition noise_pair : SentencePair := sentence 2 "a" "x".

Definition noise_world : External World :=
  ext (exits 0 "5-5") (exits 0 "0-0") (Ok tt).

Definition noise_run : list Event * Outcome :=
  run_pipeline (ext := noise_world) 1000 None 5 [[noise_pair]].

(** The forward invocation exits with status one. *)
Definition forward_failing_world : External World :=
  ext (exits 1 "") (exits 0 "0-0") (Ok tt).

(** The forward invocation succeeds, the backward one exits with status
    one. *)
Definition backward_failing_world : External World :=
  ext (exits 0 "0-0 1-1 2-1") (exits 1 "") (Ok tt).

(** The forward output has a token without separator. *)
Definition malformed_world : External World :=
  ext (exits 0 "0-0 1:1") (exits 0 "0-0") (Ok tt).

(** The aligner binary is not there. *)
Definition missing_binary : ProcOutcome := NotLaunched FileNotFoundError.

Definition missing_binary_world : External World :=
  ext missing_binary missing_binary (Ok tt).

(** The aligner's error stream holds bytes that do not decode. *)
Definition undecodable_stderr : ProcOutcome :=
  Undecodable 0 (lit "0-0 1-1 2-1" ++ [newline]).

Definition undecodable_world : External World :=
  ext undecodable_stderr undecodable_stderr (Ok tt).

(** The record of a trace's first insertion. *)
Fixpoint first_inserted (t : list Event) : option AlignmentRecord :=
  match t with
  | [] => None
  | EvInsert r :: _ => Some r
  | _ :: rest => first_inserted rest
  end.

End Scripted.

(** ** Properties of the specification that fail on the code *)

Section Statements.

Context {World : Type} {ext : External World}.
Variable batch_size : Z.
Variable max_batches : option Z.


(** A malformed token in the output of an invocation that exited with
    status zero fails the batch: its pairs are counted failed and the loop
    goes on. *)
Definition malformed_output_fails_batch (st : RunState) : Prop :=
  forall sp pairs w1 out_f err_f w2 out_b err_b w3,
    cap_reached max_batches (batch_num st) = false ->
    get_unaligned_sentence_pairs (world st) batch_size
    = (sp :: pairs, w1) ->
    fast_align_process w1 (prepare_alignment_input (sp :: pairs)) false
    = (Exited 0 out_f err_f, w2) ->
    fast_align_process w2 (prepare_alignment_input (sp :: pairs)) true
    = (Exited 0 out_b err_b, w3) ->
    has_malformed out_f = true \/ has_malformed out_b = true ->
    exists evs st',
      loop_iteration batch_size max_batches st = (evs, Continue st')
      /\ total_failed st'
         = total_failed st + Z.of_nat (length (sp :: pairs)).

End Statements.

(** Whatever [subprocess.run] meets, [run_fast_align] returns: [True] on
    exit status zero and [False] on any failure. *)
Definition failure_is_returned (reverse : bool) (o : ProcOutcome) : Prop :=
  snd (fst (run_fast_align_on reverse o))
  = Ok (match o with
        | Exited rc _ _ => rc =? 0
        | Undecodable rc _ => rc =? 0
        | NotLaunched _ => false
        end).

(** At every point of a trace the records inserted so far are at most the
    tracker's [items_succeeded]. *)
Definition records_never_exceed_tracker (evs : list Event) : Prop :=
  forall p rest,
    evs = p ++ rest -> records_inserted p <= tracker_succeeded p.

(** ** Further readings of the data *)

Module Reading.

(** The value of a string of decimal digits. *)
Definition decimal (ds : str) : Z :=
  fold_left (fun acc c => 10 * acc + digit_value c) ds 0.

(** The pair of numbers a token of the output grammar stands for: the
    digits before the separator and the digits after it. *)
Definition token_value (tok : str) : Z * Z :=
  let '(a, rest) := span_digits tok in (decimal a, decimal (tl rest)).

(** A text without line break (no LF, no CR). *)
Definition single_line (s : str) : bool :=
  forallb (fun c => negb (is_char "010" c) && negb (is_char "013" c)) s.

(** The line [prepare_alignment_input] writes for one pair. *)
Definition input_line (pair : SentencePair) : str :=
  purepecha_text pair ++ lit " ||| " ++ spanish_text pair ++ [newline].

(** The test of the forward comprehension:
    [src < len(src_tokens) and tgt < len(tgt_tokens)]. *)
Definition passes_filter (src_tokens tgt_tokens : list str) (a : Z * Z)
  : bool :=
  (fst a <? Z.of_nat (length src_tokens))
  && (snd a <? Z.of_nat (length tgt_tokens)).

(** An index so negative that it falls off the front of the list. *)
Definition off_front {A} (l : list A) (i : Z) : bool :=
  i <? - Z.of_nat (length l).

(** An alignment that passes the test with an index that falls off the
    front of its token list. *)
Definition falls_off (src_tokens tgt_tokens : list str) (a : Z * Z) : bool :=
  passes_filter src_tokens tgt_tokens a
  && (off_front src_tokens (fst a) || off_front tgt_tokens (snd a)).

(** The batches a trace opens, and the pairs they hold. *)
Definition batch_numbers (t : list Event) : list Z :=
  flat_map (fun ev => match ev with EvBatch n _ => [n] | _ => [] end) t.

Definition pairs_fetched (t : list Event) : Z :=
  fold_right (fun ev acc => match ev with
                            | EvBatch _ pairs => Z.of_nat (length pairs) + acc
                            | _ => acc
                            end) 0 t.

(** The numbers [start], [start + 1], ... *)
Fixpoint counts_from (start : Z) (l : list Z) : Prop :=
  match l with
  | [] => True
  | n :: rest => n = start /\ counts_from (start + 1) rest
  end.

(** The books of a state in order: the counters are not negative,
    together they are at most [fetched], and the tracker's counts add up
    and do not exceed the loop's. *)
Definition books_in_order {World : Type} (fetched : Z)
  (st : RunState (World := World)) : Prop :=
  0 <= total_aligned st /\ 0 <= total_failed st
  /\ total_aligned st + total_failed st <= fetched
  /\ items_processed (tracker st)
     = items_succeeded (tracker st) + items_failed (tracker st)
  /\ items_succeeded (tracker st) <= total_aligned st
  /\ items_failed (tracker st) <= total_failed st.

End Reading.
Import Reading.

(** ** A world that never changes *)

Module Stuck.

(** The database always hands out the same batch and the aligner always
    exits with status one. *)
Definition ext : External unit :=
  {| get_unaligned_sentence_pairs := fun _ _ => ([Scripted.spec_pair], tt);
     insert_alignment := fun _ _ => (Ok tt, tt);
     fast_align_process := fun _ _ _ => (Scripted.exits 1 "", tt) |}.

End Stuck.

(** * Properties *)

(** ** Loops that may raise *)

Section MapM.

Context {A B : Type} (f : A -> Result B).



Lemma mapM_total (l : list A) :
  Forall (fun x => exists y, f x = Ok y) l -> exists r, mapM f l = Ok r.
Proof.
  induction 1 as [|x l [y Hy] _ [ys Hys]]; simpl.
  - now exists [].
  - rewrite Hy, Hys; simpl. now exists (y :: ys).
Qed.

Lemma mapM_raises (l : list A) (e : exn) :
  (forall x e', f x = Raise e' -> e' = e) ->
  Exists (fun x => f x = Raise e) l -> mapM f l = Raise e.
Proof.
  intros Honly; induction 1 as [x l Hx|x l _ IH]; simpl.
  - now rewrite Hx.
  - destruct (f x) as [y|e'] eqn:Hy; simpl.
    + now rewrite IH.
    + now rewrite (Honly _ _ Hy).
Qed.

Lemma mapM_raise_inv (l : list A) (e : exn) :
  mapM f l = Raise e -> exists x, In x l /\ f x = Raise e.
Proof.
  induction l as [|x l IH]; simpl; [discriminate|].
  destruct (f x) as [y|e'] eqn:Hy; simpl.
  - destruct (mapM f l) as [ys|e'']; simpl; [discriminate|].
    intros H; inversion H; subst.
    destruct IH as [x' [Hin Hx']]; [reflexivity|]. exists x'. auto.
  - intros H; inversion H; subst. exists x. auto.
Qed.

End MapM.

(** ** Strings *)

Lemma digit_not_space (c : ascii) : is_digit c = true -> is_space c = false.
Proof.
  destruct c as [[] [] [] [] [] [] [] []]; vm_compute; congruence.
Qed.

Lemma digit_not_sign (c : ascii) :
  is_digit c = true -> is_char "-" c = false /\ is_char "+" c = false.
Proof.
  destruct c as [[] [] [] [] [] [] [] []]; vm_compute; intuition congruence.
Qed.

Lemma lstrip_split (s : str) :
  exists ws, s = ws ++ lstrip s /\ forallb is_space ws = true.
Proof.
  induction s as [|c s [ws [Hs Hws]]]; simpl.
  - now exists [].
  - destruct (is_space c) eqn:Hc.
    + exists (c :: ws); simpl. rewrite Hc, Hws. now rewrite <- Hs.
    + now exists [].
Qed.

Lemma rstrip_split (s : str) :
  exists ws, s = rstrip s ++ ws /\ forallb is_space ws = true.
Proof.
  unfold rstrip. destruct (lstrip_split (rev s)) as [ws [Hs Hws]].
  exists (rev ws); split.
  - rewrite <- rev_app_distr, <- Hs. now rewrite rev_involutive.
  - rewrite forallb_forall in *. intros c Hc. apply Hws.
    now apply in_rev.
Qed.



Lemma split_ws_from_spaces (cur ws : str) :
  forallb is_space ws = true ->
  split_ws_from cur ws = match cur with [] => [] | _ => [rev cur] end.
Proof.
  revert cur; induction ws as [|c ws IH]; simpl; intros cur H; [easy|].
  apply andb_true_iff in H as [Hc H]. rewrite Hc.
  destruct cur; now rewrite IH.
Qed.

Lemma split_ws_from_trailing (s ws cur : str) :
  forallb is_space ws = true ->
  split_ws_from cur (s ++ ws) = split_ws_from cur s.
Proof.
  intros H; revert cur; induction s as [|c s IH]; simpl; intros cur.
  - now apply split_ws_from_spaces.
  - destruct (is_space c); [destruct cur|]; now rewrite IH.
Qed.

Lemma split_ws_leading (ws s : str) :
  forallb is_space ws = true -> split_ws (ws ++ s) = split_ws s.
Proof.
  unfold split_ws. induction ws as [|c ws IH]; simpl; intros H; [easy|].
  apply andb_true_iff in H as [Hc H]. rewrite Hc. now apply IH.
Qed.

(** Stripping a line does not change its tokens. *)
Lemma split_ws_strip (s : str) : split_ws (strip s) = split_ws s.
Proof.
  unfold strip.
  destruct (lstrip_split s) as [ws1 [H1 Hws1]].
  destruct (rstrip_split (lstrip s)) as [ws2 [H2 Hws2]].
  rewrite H1 at 2. rewrite (split_ws_leading _ _ Hws1).
  rewrite H2 at 2. unfold split_ws.
  now rewrite (split_ws_from_trailing _ _ _ Hws2).
Qed.

(** The loop body read as one comprehension. *)
Lemma parse_line_tokens (line : str) :
  parse_line line = mapM parse_pair (split_ws line).
Proof.
  unfold parse_line. rewrite <- (split_ws_strip line).
  now destruct (strip line).
Qed.


Lemma span_digits_spec (s : str) :
  s = fst (span_digits s) ++ snd (span_digits s)
  /\ forallb is_digit (fst (span_digits s)) = true.
Proof.
  induction s as [|c s [IH1 IH2]]; simpl; [easy|].
  destruct (is_digit c) eqn:Hc; simpl; [|easy].
  destruct (span_digits s) as [ds rest]; simpl in *.
  rewrite Hc, IH2. now rewrite <- IH1.
Qed.

Lemma split_on_from_none (sep : ascii) (s cur : str) :
  forallb (fun c => negb (is_char sep c)) s = true ->
  split_on_from sep cur s = [rev cur ++ s].
Proof.
  revert cur; induction s as [|c s IH]; simpl; intros cur H.
  - now rewrite app_nil_r.
  - apply andb_true_iff in H as [Hc H].
    destruct (is_char sep c); [discriminate|].
    rewrite (IH _ H); simpl. now rewrite <- app_assoc.
Qed.

Lemma split_on_from_one (sep : ascii) (a b cur : str) :
  forallb (fun c => negb (is_char sep c)) a = true ->
  forallb (fun c => negb (is_char sep c)) b = true ->
  split_on_from sep cur (a ++ sep :: b) = [rev cur ++ a; b].
Proof.
  intros Ha Hb; revert cur; induction a as [|c a IH]; simpl; intros cur.
  - unfold is_char at 1. rewrite Ascii.eqb_refl.
    rewrite (split_on_from_none _ _ _ Hb). now rewrite app_nil_r.
  - simpl in Ha. apply andb_true_iff in Ha as [Hc Ha].
    destruct (is_char sep c); [discriminate|].
    rewrite (IH Ha); simpl. now rewrite <- app_assoc.
Qed.

Lemma digits_no_dash (s : str) :
  forallb is_digit s = true ->
  forallb (fun c => negb (is_char "-" c)) s = true.
Proof.
  induction s as [|c s IH]; cbn [forallb]; [easy|]. intros H.
  apply andb_true_iff in H as [Hc H].
  rewrite (proj1 (digit_not_sign _ Hc)). now rewrite IH.
Qed.


Lemma strip_digits (s : str) : forallb is_digit s = true -> strip s = s.
Proof.
  intros H. unfold strip.
  assert (Hl : forall t, forallb is_digit t = true -> lstrip t = t).
  { intros [|c t]; simpl; [easy|]. intros Ht.
    apply andb_true_iff in Ht as [Hc _]. now rewrite (digit_not_space _ Hc). }
  rewrite (Hl _ H). unfold rstrip. rewrite Hl.
  - apply rev_involutive.
  - rewrite forallb_forall in *. intros c Hc. apply H. now apply in_rev.
Qed.

Lemma filter_digits (s : str) :
  forallb is_digit s = true -> filter is_digit s = s.
Proof.
  induction s as [|c s IH]; cbn [forallb filter]; [easy|]. intros H.
  apply andb_true_iff in H as [Hc H]. now rewrite Hc, IH.
Qed.

(** On a string of digits within the cap, [int_unsigned] reads on. *)
Lemma int_unsigned_digits (c : ascii) (s : str) :
  forallb is_digit (c :: s) = true -> within_cap (c :: s) = true ->
  int_unsigned (c :: s) = int_digits (digit_value c) false s.
Proof.
  intros H Hcap. unfold int_unsigned. rewrite (filter_digits _ H).
  unfold within_cap in Hcap. rewrite Hcap.
  cbn [forallb] in H. apply andb_true_iff in H as [Hc _]. now rewrite Hc.
Qed.




(** ** The parser *)



(** The cap on digits: a number of 4300 digits is read, one of 4301 digits
    is refused, and a file holding such a token is outside the grammar and
    makes the parser raise. *)
Example int_digit_cap :
  (exists v, int (repeat "1"%char 4300) = Some v)
  /\ int (repeat "1"%char 4301) = None
  /\ int (repeat "0"%char 4301) = None
  /\ well_formed_output (repeat "1"%char 4300 ++ lit "-0" ++ [newline])
     = true
  /\ well_formed_output (repeat "1"%char 4301 ++ lit "-0" ++ [newline])
     = false
  /\ parse_alignment_output (repeat "1"%char 4301 ++ lit "-0" ++ [newline])
     = Raise ValueError.
Proof.
  split; [|split; [|split; [|split; [|split]]]]; try (vm_compute; reflexivity).
  destruct (int (repeat "1"%char 4300)) as [v|] eqn:E; [now exists v|].
  vm_compute in E. discriminate.
Qed.

(** ** Malformed tokens *)

Lemma split_on_from_length (sep : ascii) (s cur : str) :
  length (split_on_from sep cur s) = S (length (filter (is_char sep) s)).
Proof.
  revert cur; induction s as [|c s IH]; intros cur; cbn [split_on_from filter].
  - reflexivity.
  - destruct (is_char sep c); cbn [length]; now rewrite IH.
Qed.

Lemma parse_pair_ValueError (tok : str) (e : exn) :
  parse_pair tok = Raise e -> e = ValueError.
Proof.
  unfold parse_pair.
  destruct (split_on "-" tok) as [|a [|b [|c l]]]; try congruence.
  destruct (int a); [destruct (int b)|]; congruence.
Qed.

(** A malformed token makes [parse_pair] raise. *)
Lemma malformed_raises (tok : str) :
  malformed tok = true -> parse_pair tok = Raise ValueError.
Proof.
  unfold malformed, separators, parse_pair, split_on.
  pose proof (split_on_from_length "-" tok []) as Hlen.
  destruct (split_on_from "-" [] tok) as [|a [|b [|c l]]]; try reflexivity.
  cbn [length] in Hlen. injection Hlen as Hlen. rewrite <- Hlen.
  cbn [Nat.eqb negb orb existsb]. unfold not_a_number.
  destruct (int a); [destruct (int b)|]; try reflexivity.
  discriminate.
Qed.

Lemma parse_line_ValueError (line : str) (e : exn) :
  parse_line line = Raise e -> e = ValueError.
Proof.
  rewrite parse_line_tokens. intros H.
  apply mapM_raise_inv in H as [tok [_ H]].
  now apply parse_pair_ValueError in H.
Qed.

Lemma parse_alignment_output_ValueError (content : str) (e : exn) :
  parse_alignment_output content = Raise e -> e = ValueError.
Proof.
  unfold parse_alignment_output. intros H.
  apply mapM_raise_inv in H as [line [_ H]].
  now apply parse_line_ValueError in H.
Qed.

(** Malformed tokens are not skipped: one of them anywhere in the file
    makes the whole parse raise. *)
Lemma has_malformed_raises (content : str) :
  has_malformed content = true ->
  parse_alignment_output content = Raise ValueError.
Proof.
  unfold has_malformed, parse_alignment_output. intros H.
  apply existsb_exists in H as [line [Hline H]].
  apply existsb_exists in H as [tok [Htok H]].
  apply mapM_raises; [intros x e; apply parse_line_ValueError|].
  apply Exists_exists. exists line. split; [exact Hline|].
  rewrite parse_line_tokens.
  apply mapM_raises; [intros x e; apply parse_pair_ValueError|].
  apply Exists_exists. exists tok. split; [exact Htok|].
  now apply malformed_raises.
Qed.

(** ** Counting the events of a trace *)

Lemma records_inserted_app (a b : list Event) :
  records_inserted (a ++ b) = records_inserted a + records_inserted b.
Proof.
  unfold records_inserted. rewrite filter_app, length_app. lia.
Qed.

Lemma store_failures_app (a b : list Event) :
  store_failures (a ++ b) = store_failures a + store_failures b.
Proof.
  unfold store_failures. rewrite filter_app, length_app. lia.
Qed.

Lemma succeeded_from_app (c : Z) (a b : list Event) :
  succeeded_from c (a ++ b) = succeeded_from (succeeded_from c a) b.
Proof. unfold succeeded_from. apply fold_left_app. Qed.

(** Events that are neither insertions nor progress updates leave both
    counts as they are. *)
Lemma quiet_events (t : list Event) (c : Z) :
  forallb (fun ev => negb (is_insert ev) && negb (is_progress ev)) t = true ->
  records_inserted t = 0 /\ succeeded_from c t = c.
Proof.
  induction t as [|ev t IH]; cbn [forallb]; intros H; [easy|].
  apply andb_true_iff in H as [Hev H]. destruct (IH H) as [Hi Hs].
  change (ev :: t) with ([ev] ++ t).
  rewrite records_inserted_app, succeeded_from_app, Hi.
  destruct ev; try discriminate; split; try reflexivity; exact Hs.
Qed.

Lemma records_inserted_cons (ev : Event) (t : list Event) :
  records_inserted (ev :: t)
  = (if is_insert ev then 1 else 0) + records_inserted t.
Proof.
  unfold records_inserted; cbn [filter].
  destruct (is_insert ev); cbn [length]; lia.
Qed.

Lemma store_failures_cons (ev : Event) (t : list Event) :
  store_failures (ev :: t)
  = (match ev with EvStoreFailed _ => 1 | _ => 0 end) + store_failures t.
Proof.
  unfold store_failures; cbn [filter].
  destruct ev; cbn [length]; lia.
Qed.

Ltac count_events :=
  rewrite ?records_inserted_cons, ?store_failures_cons;
  cbn [is_insert]; lia.

(** ** The aligner invoker *)

Lemma run_fast_align_on_quiet (reverse : bool) (o : ProcOutcome) :
  forallb is_aligner_event (fst (fst (run_fast_align_on reverse o))) = true.
Proof.
  destruct o as [rc out err|rc out|e]; simpl; [destruct (rc =? 0)| |];
    reflexivity.
Qed.

Lemma aligner_events_batch (t : list Event) :
  forallb is_aligner_event t = true -> Forall batch_event t.
Proof.
  rewrite forallb_forall, Forall_forall. intros H ev Hev.
  specialize (H ev Hev). now destruct ev.
Qed.

Lemma aligner_events_quiet (t : list Event) (c : Z) :
  forallb is_aligner_event t = true ->
  records_inserted t = 0 /\ succeeded_from c t = c.
Proof.
  intros H. apply quiet_events. rewrite forallb_forall in *.
  intros ev Hev. specialize (H ev Hev). now destruct ev.
Qed.

Lemma store_events_batch (t : list Event) :
  Forall store_event t -> Forall batch_event t.
Proof.
  apply Forall_impl. now intros [].
Qed.

Lemma store_events_no_progress (t : list Event) (c : Z) :
  Forall store_event t -> succeeded_from c t = c.
Proof.
  induction 1 as [|ev t Hev _ IH]; [easy|].
  change (ev :: t) with ([ev] ++ t). rewrite succeeded_from_app.
  now destruct ev.
Qed.

Section Invoker.

Context {World : Type} {ext : External World}.

Lemma run_fast_align_inv (w w' : World) (input out : str) (reverse : bool)
  (evs : list Event) (res : Result bool) :
  run_fast_align w input reverse = (evs, res, out, w') ->
  exists o, fast_align_process w input reverse = (o, w')
            /\ run_fast_align_on reverse o = (evs, res, out).
Proof.
  unfold run_fast_align.
  destruct (fast_align_process w input reverse) as [o w1].
  intros H; inversion H; subst. now exists o.
Qed.

Lemma run_fast_align_events (w w' : World) (input out : str)
  (reverse : bool) (evs : list Event) (res : Result bool) :
  run_fast_align w input reverse = (evs, res, out, w') ->
  forallb is_aligner_event evs = true.
Proof.
  intros H. apply run_fast_align_inv in H as [o [_ H]].
  pose proof (run_fast_align_on_quiet reverse o) as Hq.
  now rewrite H in Hq.
Qed.

(** ** Storing a batch *)

Lemma store_loop_counts (items : list (SentencePair * list (Z * Z)
                                       * list (Z * Z)))
  (w w' : World) (s f s' f' : Z) (evs : list Event) :
  store_loop w items s f = (evs, (s', f'), w') ->
  s' = s + records_inserted evs
  /\ f' = f + store_failures evs
  /\ Forall store_event evs.
Proof.
  revert w s f evs; induction items as [|[[sp fa] ba] items IH];
    intros w s f evs; cbn [store_loop].
  - intros H; inversion H; subst.
    split; [|split]; try constructor;
      unfold records_inserted, store_failures; simpl; lia.
  - destruct (build_record sp fa ba) as [r|e] eqn:Hr.
    + destruct (insert_alignment w r) as [[u|e] w1].
      * destruct (store_loop w1 items (s + 1) f) as [[evs1 c1] w2] eqn:Hl.
        intros H; inversion H; subst.
        destruct (IH _ _ _ _ Hl) as [Hs [Hf Hev]].
        split; [|split]; try count_events.
        constructor; [now exists sp, fa, ba|exact Hev].
      * destruct (store_loop w1 items s (f + 1)) as [[evs1 c1] w2] eqn:Hl.
        intros H; inversion H; subst.
        destruct (IH _ _ _ _ Hl) as [Hs [Hf Hev]].
        split; [|split]; try count_events.
        constructor; [exact I|exact Hev].
    + destruct (store_loop w items s (f + 1)) as [[evs1 c1] w2] eqn:Hl.
      intros H; inversion H; subst.
      destruct (IH _ _ _ _ Hl) as [Hs [Hf Hev]].
      split; [|split]; try count_events.
      constructor; [exact I|exact Hev].
Qed.

End Invoker.

(** ** One turn of the loop *)

Section Iteration.

Context {World : Type} {ext : External World}.
Variable batch_size : Z.
Variable max_batches : option Z.

Lemma loop_iteration_cases (st : RunState) :
  IterCase batch_size max_batches st
    (fst (loop_iteration batch_size max_batches st))
    (snd (loop_iteration batch_size max_batches st)).
Proof.
  unfold Pipeline.loop_iteration.
  destruct (cap_reached max_batches (batch_num st)) eqn:Hcap;
    [now apply IterCap|].
  destruct (get_unaligned_sentence_pairs (world st) batch_size)
    as [pairs w1] eqn:Hfetch.
  destruct pairs as [|sp pairs]; [now apply IterExhausted|].
  destruct (run_fast_align w1 (prepare_alignment_input (sp :: pairs)) false)
    as [[[ev_f res_f] out_f] w2] eqn:Hf.
  destruct res_f as [[|]|e]; cbn [fst snd].
  - destruct (run_fast_align w2 (prepare_alignment_input (sp :: pairs)) true)
      as [[[ev_b res_b] out_b] w3] eqn:Hb.
    destruct res_b as [[|]|e]; cbn [fst snd].
    + destruct (parse_alignment_output out_f) as [fa|e] eqn:Hpf.
      * destruct (parse_alignment_output out_b) as [ba|e] eqn:Hpb.
        -- destruct (store_alignments w3 (sp :: pairs) fa ba)
             as [[ev_s [successful failed_count]] w4] eqn:Hs.
           cbn [fst snd]. eapply IterBatch; eauto.
           eapply BatchStored; eauto.
        -- cbn [fst snd]. eapply IterBatch; eauto.
           eapply BatchParseRaised; eauto.
      * cbn [fst snd]. eapply IterBatch; eauto.
        eapply BatchParseRaised; eauto.
    + eapply IterBatch; eauto. eapply BatchBackwardFailed; eauto.
    + eapply IterBatch; eauto. eapply BatchBackwardRaised; eauto.
  - eapply IterBatch; eauto. eapply BatchForwardFailed; eauto.
  - eapply IterBatch; eauto. eapply BatchForwardRaised; eauto.
Qed.

Lemma loop_iteration_inv (st : RunState) (evs : list Event) (step : Step) :
  loop_iteration batch_size max_batches st = (evs, step) ->
  IterCase batch_size max_batches st evs step.
Proof.
  intros H. pose proof (loop_iteration_cases st) as Hc.
  now rewrite H in Hc.
Qed.

(** The events that follow the opening of a batch, and what they do to the
    counters: from a state in which the tracker's [items_succeeded] is
    [total_aligned], the records inserted are what [total_aligned] grows
    by, and the tracker agrees again when the batch is over. *)
Lemma batch_case_events (st1 : RunState) (pairs : list SentencePair)
  (evs : list Event) (step : Step) :
  BatchCase st1 pairs evs step ->
  Forall batch_event evs
  /\ total_aligned st1 + records_inserted evs
     = total_aligned (step_state step)
  /\ (items_succeeded (tracker st1) = total_aligned st1 ->
      succeeded_from (total_aligned st1) evs
      = total_aligned (step_state step)
      /\ items_succeeded (tracker (step_state step))
         = total_aligned (step_state step)).
Proof.
  intros H; destruct H;
    repeat match goal with
      | Hrun : run_fast_align _ _ _ = _ |- _ =>
          apply run_fast_align_events in Hrun
      end.
  - pose proof (aligner_events_quiet _ (total_aligned st1) Hf) as [Hi Hs].
    cbn [step_state set_world total_aligned tracker].
    rewrite Hi, Hs. split; [now apply aligner_events_batch|].
    split; [lia|easy].
  - assert (Hq : forallb is_aligner_event
                   (ev_f ++ [EvLogError (lit "Forward alignment failed")])
                 = true)
      by (rewrite forallb_app, Hf; reflexivity).
    pose proof (aligner_events_quiet _ (total_aligned st1) Hq) as [Hi Hs].
    cbn [step_state set_world count_failed total_aligned tracker].
    rewrite Hi, Hs. split; [now apply aligner_events_batch|].
    split; [lia|easy].
  - assert (Hq : forallb is_aligner_event (ev_f ++ ev_b) = true)
      by (rewrite forallb_app, Hf, Hb; reflexivity).
    pose proof (aligner_events_quiet _ (total_aligned st1) Hq) as [Hi Hs].
    cbn [step_state set_world total_aligned tracker].
    rewrite Hi, Hs. split; [now apply aligner_events_batch|].
    split; [lia|easy].
  - assert (Hq : forallb is_aligner_event
                   (ev_f ++ ev_b
                      ++ [EvLogError (lit "Backward alignment failed")])
                 = true)
      by (rewrite !forallb_app, Hf, Hb; reflexivity).
    pose proof (aligner_events_quiet _ (total_aligned st1) Hq) as [Hi Hs].
    cbn [step_state set_world count_failed total_aligned tracker].
    rewrite Hi, Hs. split; [now apply aligner_events_batch|].
    split; [lia|easy].
  - assert (Hq : forallb is_aligner_event (ev_f ++ ev_b) = true)
      by (rewrite forallb_app, Hf, Hb; reflexivity).
    pose proof (aligner_events_quiet _ (total_aligned st1) Hq) as [Hi Hs].
    cbn [step_state set_world total_aligned tracker].
    rewrite Hi, Hs. split; [now apply aligner_events_batch|].
    split; [lia|easy].
  - unfold store_alignments in Hs.
    apply store_loop_counts in Hs as [Hsucc [Hfail Hev]].
    pose proof (aligner_events_quiet _ (total_aligned st1) Hf) as [Hif Hsf].
    destruct (aligner_events_quiet ev_b (total_aligned st1) Hb)
      as [Hib Hsb].
    split; [|split].
    + repeat (apply Forall_app; split);
        try (now apply aligner_events_batch);
        try (now apply store_events_batch).
      repeat constructor.
    + rewrite !records_inserted_app, Hif, Hib.
      cbn [step_state record_batch set_world total_aligned].
      unfold progress_event. rewrite records_inserted_cons.
      cbn [is_insert]. unfold records_inserted at 2. simpl. lia.
    + intros _. rewrite !succeeded_from_app, Hsf, Hsb.
      rewrite (store_events_no_progress _ Hev).
      cbn [step_state record_batch set_world total_aligned tracker
           update_progress items_succeeded].
      split; reflexivity.
Qed.

Lemma batch_events_trace (t : list Event) :
  Forall batch_event t -> Forall loop_event t.
Proof.
  apply Forall_impl. now intros [].
Qed.

(** A turn of the loop emits nothing, or opens a batch and goes on with
    the events of that batch. *)
Lemma iter_case_shape (st : RunState) (evs : list Event) (step : Step) :
  IterCase batch_size max_batches st evs step ->
  evs = []
  \/ exists n pairs tail,
       evs = EvBatch n pairs :: tail /\ Forall batch_event tail.
Proof.
  intros [Hcap|w1 Hcap Hfetch|sp pairs w1 tail step' Hcap Hfetch Hbatch];
    [now left..|].
  right. exists (batch_num st + 1), (sp :: pairs), tail.
  split; [reflexivity|]. now apply batch_case_events in Hbatch.
Qed.

Lemma iter_case_trace (st : RunState) (evs : list Event) (step : Step) :
  IterCase batch_size max_batches st evs step -> Forall loop_event evs.
Proof.
  intros H. apply iter_case_shape in H as [-> | [n [ps [tail [-> Ht]]]]].
  - constructor.
  - constructor; [exact I|now apply batch_events_trace].
Qed.

Lemma run_loop_trace (fuel : nat) (st : RunState) (evs : list Event)
  (o : Outcome) :
  run_loop batch_size max_batches fuel st = (evs, o) ->
  Forall loop_event evs.
Proof.
  revert st evs o; induction fuel as [|fuel IH]; intros st evs o;
    cbn [run_loop].
  - intros H; inversion H; constructor.
  - destruct (loop_iteration batch_size max_batches st) as [bevs step] eqn:E.
    apply loop_iteration_inv, iter_case_trace in E.
    destruct step as [st'|st'|e st'].
    + intros H; inversion H; subst; exact E.
    + destruct (run_loop batch_size max_batches fuel st') as [evs' o']
        eqn:Hl.
      intros H; inversion H; subst.
      apply Forall_app; split; [exact E|exact (IH _ _ _ Hl)].
    + intros H; inversion H; subst; exact E.
Qed.

(** Every record a run inserts was built by [store_alignments]. *)
Lemma run_pipeline_inserts_built (fuel : nat) (w : World)
  (evs : list Event) (o : Outcome) (r : AlignmentRecord) :
  run_pipeline batch_size max_batches fuel w = (evs, o) ->
  In (EvInsert r) evs -> built r.
Proof.
  unfold run_pipeline.
  destruct (run_loop batch_size max_batches fuel (initial_state w))
    as [levs lo] eqn:Hl.
  pose proof (run_loop_trace _ _ Hl) as Ht.
  rewrite Forall_forall in Ht.
  assert (Hin : In (EvInsert r) (EvStart :: levs ++ [EvComplete completed])
                -> built r).
  { intros [Hr|Hr]; [discriminate|].
    apply in_app_or in Hr as [Hr|[Hr|[]]]; [|discriminate].
    exact (Ht _ Hr). }
  destruct lo; intros H; inversion H; subst; intros Hr.
  - now apply Hin.
  - apply Hin. destruct Hr as [Hr|Hr]; [discriminate|].
    right. apply in_or_app. now left.
  - apply Hin. destruct Hr as [Hr|Hr]; [discriminate|].
    right. apply in_or_app. now left.
Qed.

End Iteration.

(** ** The scorer and the quality label *)

Lemma calculate_alignment_score_degenerate (alignments : list (Z * Z))
  (src_length tgt_length : Z) :
  alignments = [] \/ src_length = 0 \/ tgt_length = 0 ->
  calculate_alignment_score alignments src_length tgt_length = 0%float.
Proof.
  unfold calculate_alignment_score.
  intros [-> | [-> | ->]]; [reflexivity|now destruct alignments|].
  destruct alignments; [reflexivity|]. now rewrite orb_true_r.
Qed.

(** The scenario of three source tokens and two target tokens. *)
Example calculate_alignment_score_scenario :
  calculate_alignment_score [(0, 0); (1, 1); (2, 1)] 3 2 = 0.7833%float.
Proof. vm_compute. reflexivity. Qed.

Lemma quality_of_threshold (score : float) :
  (quality_of score = auto_aligned <-> PrimFloat.leb 0.7 score = true)
  /\ (quality_of score = raw <-> PrimFloat.leb 0.7 score = false).
Proof.
  unfold quality_of. destruct (PrimFloat.leb 0.7 score);
    split; split; congruence.
Qed.

Lemma build_record_fields (sp : SentencePair) (fa ba : list (Z * Z))
  (r : AlignmentRecord) :
  build_record sp fa ba = Ok r ->
  alignment_score r
  = calculate_alignment_score fa
      (Z.of_nat (length (split_ws (purepecha_text sp))))
      (Z.of_nat (length (split_ws (spanish_text sp))))
  /\ quality_status r = quality_of (alignment_score r)
  /\ forward_entries (split_ws (purepecha_text sp))
                     (split_ws (spanish_text sp)) fa
     = Ok (forward (word_alignments r)).
Proof.
  unfold build_record.
  destruct (forward_entries _ _ fa) as [fwd|e]; cbn [bind]; [|discriminate].
  intros H; inversion H; subst; cbn. repeat split.
Qed.

(** C2: on the forward alignment [[(0,0); (1,0); (2,0)]] of a one-token
    source and a one-token target, [calculate_alignment_score] returns
    [2.0], which is above one; [store_alignments] builds the record of such
    a pair with that score. *)
Theorem calculate_alignment_score_above_one :
  calculate_alignment_score [(0, 0); (1, 0); (2, 0)] 1 1 = 2%float
  /\ PrimFloat.ltb 1 (calculate_alignment_score [(0, 0); (1, 0); (2, 0)] 1 1)
     = true
  /\ option_map alignment_score
       (match build_record (Scripted.sentence 1 "a" "x")
                [(0, 0); (1, 0); (2, 0)] [] with
        | Ok r => Some r
        | Raise _ => None
        end) = Some 2%float.
Proof. vm_compute. repeat split. Qed.


Lemma first_inserted_In (t : list Event) (r : AlignmentRecord) :
  Scripted.first_inserted t = Some r -> In (EvInsert r) t.
Proof.
  induction t as [|ev t IH]; cbn [Scripted.first_inserted]; [discriminate|].
  destruct ev; try (intros H; right; now apply IH).
  intros H; inversion H; subst. now left.
Qed.

Section Labels.

Context {World : Type} {ext : External World}.
Variable batch_size : Z.
Variable max_batches : option Z.

(** C3: every alignment record a run inserts carries the label
    [auto_aligned] exactly when its score is at least [0.7] and [raw]
    otherwise; the label is [quality_of] of the score, a function of the
    score alone, whatever the score. *)
Theorem quality_label_iff_threshold (fuel : nat) (w : World)
  (evs : list Event) (o : Outcome) (r : AlignmentRecord) :
  run_pipeline batch_size max_batches fuel w = (evs, o) ->
  In (EvInsert r) evs ->
  quality_status r = quality_of (alignment_score r)
  /\ (quality_status r = auto_aligned
      <-> PrimFloat.leb 0.7 (alignment_score r) = true)
  /\ (quality_status r = raw
      <-> PrimFloat.leb 0.7 (alignment_score r) = false)
  /\ (forall score : float,
        (quality_of score = auto_aligned <-> PrimFloat.leb 0.7 score = true)
        /\ (quality_of score = raw <-> PrimFloat.leb 0.7 score = false)).
Proof.
  intros Hrun Hin.
  destruct (run_pipeline_inserts_built _ _ _ _ _ Hrun Hin)
    as [sp [fa [ba Hb]]].
  apply build_record_fields in Hb as [_ [Hq _]].
  split; [exact Hq|]. rewrite Hq.
  destruct (quality_of_threshold (alignment_score r)) as [Ha Hr].
  split; [exact Ha|]. split; [exact Hr|]. exact quality_of_threshold.
Qed.

End Labels.

(** C10: the score of a record, and with it the label, is computed by
    [calculate_alignment_score] on the whole forward alignment and the two
    token counts, while the forward payload keeps only the entries whose
    indices are in range; and there is a pair whose forward entries are all
    out of range whose inserted record has an empty forward payload and a
    score above zero. *)
Theorem score_precedes_range_filter :
  (forall (sp : SentencePair) (fa ba : list (Z * Z)) (r : AlignmentRecord),
      build_record sp fa ba = Ok r ->
      alignment_score r
      = calculate_alignment_score fa
          (Z.of_nat (length (split_ws (purepecha_text sp))))
          (Z.of_nat (length (split_ws (spanish_text sp))))
      /\ quality_status r = quality_of (alignment_score r)
      /\ forward_entries (split_ws (purepecha_text sp))
                         (split_ws (spanish_text sp)) fa
         = Ok (forward (word_alignments r)))
  /\ (exists r,
        Scripted.first_inserted (fst Scripted.noise_run) = Some r
        /\ parse_alignment_output (lit "5-5" ++ [newline]) = Ok [[(5, 5)]]
        /\ build_record Scripted.noise_pair [(5, 5)] [(0, 0)] = Ok r
        /\ length (split_ws (purepecha_text Scripted.noise_pair)) = 1%nat
        /\ length (split_ws (spanish_text Scripted.noise_pair)) = 1%nat
        /\ forward (word_alignments r) = []
        /\ PrimFloat.ltb 0 (alignment_score r) = true
        /\ alignment_score r = 0.85%float
        /\ quality_status r = auto_aligned).
Proof.
  split; [exact build_record_fields|].
  eexists. vm_compute. repeat split.
Qed.

(** The record of the three-token scenario. *)
Lemma quality_label_iff_threshold_witness :
  exists r, In (EvInsert r) (fst Scripted.spec_run)
            /\ alignment_score r = 0.7833%float
            /\ quality_status r = quality_of (alignment_score r)
            /\ quality_status r = auto_aligned.
Proof.
  destruct (Scripted.first_inserted (fst Scripted.spec_run)) as [r|] eqn:E;
    [|discriminate].
  exists r. pose proof (first_inserted_In _ E) as Hin.
  destruct (@quality_label_iff_threshold
              _ Scripted.spec_world 1000 None 5 [[Scripted.spec_pair]]
              _ _ r (surjective_pairing Scripted.spec_run) Hin)
    as [Hq [Ha _]].
  vm_compute in E. inversion E; subst. clear E.
  split; [exact Hin|]. split; [reflexivity|]. split; [exact Hq|].
  apply Ha. vm_compute. reflexivity.
Defined.

(** The record of the out-of-range pair. *)
Lemma score_precedes_range_filter_witness :
  exists r, build_record Scripted.noise_pair [(5, 5)] [(0, 0)] = Ok r
            /\ alignment_score r
               = calculate_alignment_score [(5, 5)] 1 1.
Proof.
  destruct (build_record Scripted.noise_pair [(5, 5)] [(0, 0)]) as [r|e]
    eqn:E; [|discriminate].
  exists r. split; [reflexivity|].
  exact (proj1 (proj1 score_precedes_range_filter _ _ _ _ E)).
Defined.

(** ** The invoker's result *)

Section InvokerResult.

Context {World : Type} {ext : External World}.

(** C7, as the code has it: [run_fast_align] returns [True] exactly when the
    aligner exits with status zero and its error stream decodes, returns
    [False] exactly when it exits with another status and its error stream
    decodes, the error stream going to the log in that case and the
    standard output to the output file in both; an error stream that does
    not decode raises [UnicodeDecodeError] whatever the exit status, and the
    exception of a process that could not be launched escapes as well. *)
Theorem run_fast_align_result (w w' : World) (input : str) (reverse : bool)
  (o : ProcOutcome) :
  fast_align_process w input reverse = (o, w') ->
  exists evs res out,
    run_fast_align w input reverse = (evs, res, out, w')
    /\ res = match o with
             | Exited rc _ _ => Ok (rc =? 0)
             | Undecodable _ _ => Raise UnicodeDecodeError
             | NotLaunched e => Raise e
             end
    /\ (res = Ok true <-> exists captured err, o = Exited 0 captured err)
    /\ (res = Ok false
        <-> exists rc captured err, o = Exited rc captured err /\ rc <> 0)
    /\ match o with
       | Exited rc captured err =>
           out = captured
           /\ (rc <> 0 ->
               In (EvLogError (lit "fast_align failed: " ++ err)) evs)
           /\ (rc = 0 -> evs = [EvAligner reverse o])
       | Undecodable _ captured =>
           out = captured /\ evs = [EvAligner reverse o]
       | NotLaunched _ => evs = [EvAligner reverse o]
       end.
Proof.
  intros H. unfold run_fast_align. rewrite H.
  destruct o as [rc out err|rc out|e]; cbn [run_fast_align_on].
  - destruct (rc =? 0) eqn:Hrc.
    + apply Z.eqb_eq in Hrc. subst rc.
      eexists _, _, _. split; [reflexivity|]. split; [reflexivity|].
      split; [|split; [|split; [|split]]].
      * split; [intros _; now exists out, err|reflexivity].
      * split; [discriminate|].
        intros [rc [c [e [Ho Hne]]]]. inversion Ho; subst. now elim Hne.
      * reflexivity.
      * intros Hne. now elim Hne.
      * reflexivity.
    + apply Z.eqb_neq in Hrc.
      eexists _, _, _. split; [reflexivity|]. split; [reflexivity|].
      split; [|split; [|split; [|split]]].
      * split; [discriminate|].
        intros [c [e Ho]]. inversion Ho; subst. now elim Hrc.
      * split; [intros _; now exists rc, out, err|reflexivity].
      * reflexivity.
      * intros _. right. now left.
      * intros H0. now elim Hrc.
  - eexists _, _, _. split; [reflexivity|]. split; [reflexivity|].
    split; [|split; [|split]].
    + split; [discriminate|]. intros [c [e Ho]]. discriminate.
    + split; [discriminate|]. intros [r [c [e [Ho _]]]]. discriminate.
    + reflexivity.
    + reflexivity.
  - eexists _, _, _. split; [reflexivity|]. split; [reflexivity|].
    split; [|split; [|reflexivity]].
    + split; [intros Hx|intros [c [x Ho]]]; discriminate.
    + split; [intros Hx|intros [r [c [x [Ho _]]]]]; discriminate.
Qed.

End InvokerResult.




(** ** The batch loop *)

Section Run.

Context {World : Type} {ext : External World}.
Variable batch_size : Z.
Variable max_batches : option Z.



Lemma run_loop_step (fuel : nat) (st st' : RunState) (evs : list Event) :
  loop_iteration batch_size max_batches st = (evs, Continue st') ->
  run_loop batch_size max_batches (S fuel) st
  = (evs ++ fst (run_loop batch_size max_batches fuel st'),
     snd (run_loop batch_size max_batches fuel st')).
Proof.
  intros H. cbn [run_loop]. rewrite H.
  now destruct (run_loop batch_size max_batches fuel st').
Qed.

(** C4: when the forward invocation returns failure, or the forward one
    succeeds and the backward one returns failure, the turn of the loop
    inserts no record, adds the size of the batch to [total_failed], leaves
    [total_aligned] as it is, and the loop goes on with the next turn. *)
Theorem failed_invocation_fails_batch (st : RunState) (sp : SentencePair)
  (pairs : list SentencePair) (w1 w2 w3 : World) (ev_f ev_b : list Event)
  (out_f out_b : str) :
  cap_reached max_batches (batch_num st) = false ->
  get_unaligned_sentence_pairs (world st) batch_size = (sp :: pairs, w1) ->
  run_fast_align w1 (prepare_alignment_input (sp :: pairs)) false
  = (ev_f, Ok false, out_f, w2)
  \/ (run_fast_align w1 (prepare_alignment_input (sp :: pairs)) false
      = (ev_f, Ok true, out_f, w2)
      /\ run_fast_align w2 (prepare_alignment_input (sp :: pairs)) true
         = (ev_b, Ok false, out_b, w3)) ->
  exists evs st',
    loop_iteration batch_size max_batches st = (evs, Continue st')
    /\ records_inserted evs = 0
    /\ total_failed st' = total_failed st + Z.of_nat (length (sp :: pairs))
    /\ total_aligned st' = total_aligned st
    /\ batch_num st' = batch_num st + 1
    /\ forall fuel,
         run_loop batch_size max_batches (S fuel) st
         = (evs ++ fst (run_loop batch_size max_batches fuel st'),
            snd (run_loop batch_size max_batches fuel st')).
Proof.
  intros Hcap Hfetch Hfail.
  assert (Hit : exists evs st',
             loop_iteration batch_size max_batches st = (evs, Continue st')
             /\ forallb is_aligner_event (tl evs) = true
             /\ (exists n ps, hd EvStart evs = EvBatch n ps)
             /\ total_failed st'
                = total_failed st + Z.of_nat (length (sp :: pairs))
             /\ total_aligned st' = total_aligned st
             /\ batch_num st' = batch_num st + 1).
  { unfold loop_iteration. rewrite Hcap, Hfetch.
    destruct Hfail as [Hf|[Hf Hb]].
    - rewrite Hf. eexists _, _. split; [reflexivity|].
      apply run_fast_align_events in Hf. cbn [tl hd].
      rewrite forallb_app, Hf. repeat split; eauto.
    - rewrite Hf, Hb. eexists _, _. split; [reflexivity|].
      apply run_fast_align_events in Hf, Hb. cbn [tl hd].
      rewrite !forallb_app, Hf, Hb. repeat split; eauto. }
  destruct Hit as [evs [st' [Hit [Hq [[n [ps Hhd]] [Hf [Ha Hn]]]]]]].
  exists evs, st'. split; [exact Hit|]. split.
  - destruct evs as [|ev tail]; [reflexivity|]. cbn [hd tl] in *. subst ev.
    rewrite records_inserted_cons. cbn [is_insert].
    now rewrite (proj1 (aligner_events_quiet _ 0 Hq)).
  - repeat (split; [assumption|]). intros fuel. now apply run_loop_step.
Qed.


(** C6, as the code has it: a malformed token anywhere in an output file
    makes [parse_alignment_output] raise [ValueError], no line being
    skipped; and when both invocations of a batch exited with status zero
    and one of the two outputs has a malformed token, the exception escapes
    the loop: the run stops at this batch with [total_failed] and the
    tracker as they were before it, without a progress update. *)
Theorem malformed_output_aborts_run (st : RunState) (sp : SentencePair)
  (pairs : list SentencePair) (w1 w2 w3 : World) (ev_f ev_b : list Event)
  (out_f out_b : str) :
  cap_reached max_batches (batch_num st) = false ->
  get_unaligned_sentence_pairs (world st) batch_size = (sp :: pairs, w1) ->
  run_fast_align w1 (prepare_alignment_input (sp :: pairs)) false
  = (ev_f, Ok true, out_f, w2) ->
  run_fast_align w2 (prepare_alignment_input (sp :: pairs)) true
  = (ev_b, Ok true, out_b, w3) ->
  has_malformed out_f = true \/ has_malformed out_b = true ->
  (parse_alignment_output out_f = Raise ValueError
   \/ parse_alignment_output out_b = Raise ValueError)
  /\ forall fuel,
       run_loop batch_size max_batches (S fuel) st
       = (EvBatch (batch_num st + 1) (sp :: pairs) :: ev_f ++ ev_b,
          Raised ValueError
            {| world := w3; batch_num := batch_num st + 1;
               total_aligned := total_aligned st;
               total_failed := total_failed st;
               tracker := tracker st |}).
Proof.
  intros Hcap Hfetch Hf Hb Hmal. split.
  - destruct Hmal as [H|H]; [left|right]; now apply has_malformed_raises.
  - intros fuel. cbn [run_loop]. unfold loop_iteration.
    rewrite Hcap, Hfetch, Hf, Hb.
    destruct (parse_alignment_output out_f) as [fa|e] eqn:Hpf.
    + destruct Hmal as [H|H]; apply has_malformed_raises in H;
        [congruence|]. now rewrite H.
    + now rewrite (parse_alignment_output_ValueError _ Hpf).
Qed.

(** *** Completion *)

Lemma iter_case_status (st : RunState) (evs : list Event) (step : Step) :
  IterCase batch_size max_batches st evs step ->
  status (tracker (step_state step)) = status (tracker st)
  /\ (forall st', step = Continue st' ->
        batch_num st' = batch_num st + 1
        /\ cap_reached max_batches (batch_num st) = false).
Proof.
  intros [Hcap|w1 Hcap Hfetch|sp pairs w1 tail step' Hcap Hfetch Hbatch];
    [split; [reflexivity|discriminate]..|].
  destruct Hbatch; (split; [reflexivity|]); intros st' Hst;
    inversion Hst; subst; split; solve [reflexivity | assumption].
Qed.

Lemma run_loop_status (fuel : nat) (st : RunState) (evs : list Event)
  (o : Outcome) :
  run_loop batch_size max_batches fuel st = (evs, o) ->
  status (tracker (final_state o)) = status (tracker st).
Proof.
  revert st evs o; induction fuel as [|fuel IH]; intros st evs o;
    cbn [run_loop].
  - intros H; inversion H; reflexivity.
  - destruct (loop_iteration batch_size max_batches st) as [bevs step] eqn:E.
    apply loop_iteration_inv, iter_case_status in E as [E _].
    destruct step as [st'|st'|e st']; cbn [step_state] in E.
    + intros H; inversion H; subst; exact E.
    + destruct (run_loop batch_size max_batches fuel st') as [evs' o']
        eqn:Hl.
      intros H; inversion H; subst. now rewrite (IH _ _ _ Hl).
    + intros H; inversion H; subst; exact E.
Qed.

(** With a batch cap, a run given more turns than the cap does not run out
    of them. *)
Lemma run_loop_cap_terminates (m : Z) (fuel : nat) (st : RunState) :
  max_batches = Some m -> 0 < m ->
  (0 < fuel)%nat -> m - batch_num st < Z.of_nat fuel ->
  forall st', snd (run_loop batch_size max_batches fuel st) <> OutOfFuel st'.
Proof.
  intros Hm Hpos. revert st; induction fuel as [|fuel IH];
    intros st Hfuel Hlt st'; [lia|]. cbn [run_loop].
  destruct (loop_iteration batch_size max_batches st) as [bevs step] eqn:E.
  apply loop_iteration_inv, iter_case_status in E as [_ E].
  destruct step as [st1|st1|e st1]; cbn [snd]; try discriminate.
  destruct (E st1 eq_refl) as [Hn Hcap].
  rewrite Hm in Hcap. cbn [cap_reached] in Hcap.
  apply andb_false_iff in Hcap as [Hcap|Hcap].
  - apply negb_false_iff, Z.eqb_eq in Hcap. lia.
  - apply Z.leb_gt in Hcap.
    specialize (IH st1).
    destruct (run_loop batch_size max_batches fuel st1) as [evs' o'].
    cbn [snd] in *. apply IH; lia.
Qed.

(** A loop left at its [n]-th turn is a loop that [run_loop] leaves, given
    that many turns or more. *)
Lemma loop_left_run (n : nat) (st st' : RunState) (evs : list Event) :
  LoopLeft batch_size max_batches n st evs st' ->
  forall fuel, (n <= fuel)%nat ->
    run_loop batch_size max_batches fuel st = (evs, Finished st').
Proof.
  induction 1 as [st evs st' Hturn|n st evs st1 evs' st' Hturn _ IH];
    intros fuel Hfuel; (destruct fuel as [|fuel]; [lia|]);
    cbn [run_loop]; rewrite Hturn; [reflexivity|].
  rewrite (IH fuel) by lia. reflexivity.
Qed.

Lemma run_loop_left (fuel : nat) (st st' : RunState) (evs : list Event) :
  run_loop batch_size max_batches fuel st = (evs, Finished st') ->
  exists n, (n <= fuel)%nat /\ LoopLeft batch_size max_batches n st evs st'.
Proof.
  revert st evs; induction fuel as [|fuel IH]; intros st evs;
    cbn [run_loop]; [discriminate|].
  destruct (loop_iteration batch_size max_batches st) as [bevs step] eqn:E.
  destruct step as [st1|st1|e st1].
  - intros H; inversion H; subst. exists 1%nat. split; [lia|].
    now apply LeftBreak.
  - destruct (run_loop batch_size max_batches fuel st1) as [evs' o'] eqn:Hl.
    intros H; inversion H; subst.
    destruct (IH _ _ Hl) as [n [Hn Hleft]]. exists (S n). split; [lia|].
    now apply LeftContinue with (st1 := st1).
  - discriminate.
Qed.

(** Whatever the outcome of a run, its tracker is not in status [failed]
    and no completion with another status than [completed] is issued. *)
Lemma run_pipeline_never_failed (fuel : nat) (w : World) :
  status (tracker (final_state
                     (snd (run_pipeline batch_size max_batches fuel w))))
  <> failed
  /\ forall s,
       In (EvComplete s) (fst (run_pipeline batch_size max_batches fuel w)) ->
       s = completed.
Proof.
  unfold run_pipeline.
  destruct (run_loop batch_size max_batches fuel (initial_state w))
    as [levs lo] eqn:Hl.
  pose proof (run_loop_status _ _ Hl) as Hst.
  pose proof (run_loop_trace _ _ _ _ Hl) as Hev.
  rewrite Forall_forall in Hev.
  cbn [initial_state tracker start_run status] in Hst.
  assert (Hlevs : forall s, ~ In (EvComplete s) levs)
    by (intros s Hs; exact (Hev _ Hs)).
  destruct lo as [st0|e st0|st0];
    cbn [fst snd final_state finalize tracker complete_run status] in *.
  - split; [discriminate|].
    intros s [Hs|Hs]; [discriminate|].
    apply in_app_or in Hs as [Hs|[Hs|[]]]; [now apply Hlevs in Hs|].
    now inversion Hs.
  - split; [rewrite Hst; discriminate|].
    intros s [Hs|Hs]; [discriminate|now apply Hlevs in Hs].
  - split; [rewrite Hst; discriminate|].
    intros s [Hs|Hs]; [discriminate|now apply Hlevs in Hs].
Qed.

(** A first batch whose forward invocation exits with another status than
    zero, followed by an empty fetch: the run counts the batch as failed
    and is completed. *)
Lemma failed_batch_then_empty (w w1 w2 w3 : World) (sp : SentencePair)
  (pairs : list SentencePair) (rc : Z) (out err : str) (fuel : nat) :
  cap_reached max_batches 0 = false ->
  get_unaligned_sentence_pairs w batch_size = (sp :: pairs, w1) ->
  fast_align_process w1 (prepare_alignment_input (sp :: pairs)) false
  = (Exited rc out err, w2) ->
  rc <> 0 ->
  get_unaligned_sentence_pairs w2 batch_size = ([], w3) ->
  (2 <= fuel)%nat ->
  exists levs st,
    LoopLeft batch_size max_batches 2 (initial_state w) levs st
    /\ In (EvBatch 1 (sp :: pairs)) levs
    /\ total_aligned st = 0
    /\ total_failed st = Z.of_nat (length (sp :: pairs))
    /\ tracker st = start_run.
Proof.
  intros Hcap Hfetch Hproc Hrc Hempty Hfuel.
  apply Z.eqb_neq in Hrc.
  assert (H1 : exists evs1 st1,
             loop_iteration batch_size max_batches (initial_state w)
             = (EvBatch 1 (sp :: pairs) :: evs1, Continue st1)
             /\ world st1 = w2 /\ batch_num st1 = 1
             /\ total_aligned st1 = 0
             /\ total_failed st1 = Z.of_nat (length (sp :: pairs))
             /\ tracker st1 = start_run).
  { unfold loop_iteration. cbn [initial_state batch_num world].
    rewrite Hcap, Hfetch. unfold run_fast_align. rewrite Hproc.
    cbn [run_fast_align_on]. rewrite Hrc.
    eexists _, _. split; [reflexivity|]. repeat split. }
  destruct H1 as [evs1 [st1 [Hturn1 [Hw [Hn [Ha [Hf Ht]]]]]]].
  assert (H2 : exists st2,
             loop_iteration batch_size max_batches st1 = ([], Break st2)
             /\ total_aligned st2 = total_aligned st1
             /\ total_failed st2 = total_failed st1
             /\ tracker st2 = tracker st1).
  { unfold loop_iteration.
    destruct (cap_reached max_batches (batch_num st1)).
    - exists st1. repeat split.
    - rewrite Hw, Hempty. eexists. split; [reflexivity|]. repeat split. }
  destruct H2 as [st2 [Hturn2 [Ha2 [Hf2 Ht2]]]].
  exists ((EvBatch 1 (sp :: pairs) :: evs1) ++ []), st2.
  split; [|split; [|split; [|split]]].
  - apply LeftContinue with (st1 := st1); [exact Hturn1|].
    now apply LeftBreak.
  - now left.
  - congruence.
  - congruence.
  - congruence.
Qed.

(** C8: a run whose batch loop is left, at whatever turn, by either [break]
    and after whatever batches, is finalized: [run_pipeline] returns, its
    trace is the loop's followed by the completion with status [completed],
    its tracker is the loop's completed, and its counters are the loop's;
    and a run is finalized only so.  Whatever happened to the batches, the
    tracker of a run is never in status [failed] and no completion with
    another status is ever issued.  A run whose first batch fails in the
    forward invocation and whose next fetch is empty is completed with that
    batch counted as failed.  A run whose first fetch is empty leaves the
    loop at once, with both counters at zero.  With a batch cap the loop is
    left or an exception escapes within the cap's number of turns. *)
Theorem run_completes (w : World) :
  (forall n levs st,
     LoopLeft batch_size max_batches n (initial_state w) levs st ->
     forall fuel, (n <= fuel)%nat ->
       run_pipeline batch_size max_batches fuel w
       = (EvStart :: levs ++ [EvComplete completed], Finished (finalize st))
       /\ tracker (finalize st) = complete_run (tracker st) completed
       /\ status (tracker (finalize st)) = completed
       /\ total_aligned (finalize st) = total_aligned st
       /\ total_failed (finalize st) = total_failed st)
  /\ (forall fuel evs st',
        run_pipeline batch_size max_batches fuel w = (evs, Finished st') ->
        exists n levs st,
          (n <= fuel)%nat
          /\ LoopLeft batch_size max_batches n (initial_state w) levs st
          /\ st' = finalize st
          /\ evs = EvStart :: levs ++ [EvComplete completed]
          /\ status (tracker st') = completed)
  /\ (forall fuel,
        status (tracker (final_state
                           (snd (run_pipeline batch_size max_batches
                                   fuel w))))
        <> failed
        /\ forall s,
             In (EvComplete s)
                (fst (run_pipeline batch_size max_batches fuel w)) ->
             s = completed)
  /\ (forall w1 w2 w3 sp pairs rc out err fuel,
        cap_reached max_batches 0 = false ->
        get_unaligned_sentence_pairs w batch_size = (sp :: pairs, w1) ->
        fast_align_process w1 (prepare_alignment_input (sp :: pairs)) false
        = (Exited rc out err, w2) ->
        rc <> 0 ->
        get_unaligned_sentence_pairs w2 batch_size = ([], w3) ->
        (2 <= fuel)%nat ->
        exists evs st,
          run_pipeline batch_size max_batches fuel w = (evs, Finished st)
          /\ In (EvBatch 1 (sp :: pairs)) evs
          /\ status (tracker st) = completed
          /\ total_aligned st = 0
          /\ total_failed st = Z.of_nat (length (sp :: pairs)))
  /\ (forall w1 fuel,
        get_unaligned_sentence_pairs w batch_size = ([], w1) ->
        (0 < fuel)%nat ->
        exists st,
          run_pipeline batch_size max_batches fuel w
          = ([EvStart; EvComplete completed], Finished st)
          /\ total_aligned st = 0 /\ total_failed st = 0
          /\ tracker st = complete_run start_run completed)
  /\ (forall m fuel, max_batches = Some m -> 0 < m -> m < Z.of_nat fuel ->
        forall st,
          snd (run_pipeline batch_size max_batches fuel w) <> OutOfFuel st).
Proof.
  assert (Hleft : forall n levs st,
             LoopLeft batch_size max_batches n (initial_state w) levs st ->
             forall fuel, (n <= fuel)%nat ->
               run_pipeline batch_size max_batches fuel w
               = (EvStart :: levs ++ [EvComplete completed],
                  Finished (finalize st))).
  { intros n levs st Hl fuel Hfuel. unfold run_pipeline.
    now rewrite (loop_left_run Hl Hfuel). }
  split; [|split; [|split; [|split; [|split]]]].
  - intros n levs st Hl fuel Hfuel.
    split; [now apply Hleft with (n := n)|]. repeat split.
  - intros fuel evs st'. unfold run_pipeline.
    destruct (run_loop batch_size max_batches fuel (initial_state w))
      as [levs lo] eqn:Hl.
    destruct lo as [st0|e st0|st0]; intros H; inversion H; subst.
    destruct (run_loop_left _ _ Hl) as [n [Hn Hloop]].
    exists n, levs, st0. repeat split; assumption.
  - intros fuel. apply run_pipeline_never_failed.
  - intros w1 w2 w3 sp pairs rc out err fuel Hcap Hfetch Hproc Hrc Hempty
           Hfuel.
    destruct (@failed_batch_then_empty w w1 w2 w3 sp pairs rc out err fuel
                Hcap Hfetch Hproc Hrc Hempty Hfuel)
      as [levs [st [Hloop [Hin [Ha [Hf _]]]]]].
    exists (EvStart :: levs ++ [EvComplete completed]), (finalize st).
    split; [now apply Hleft with (n := 2%nat)|].
    split; [right; apply in_or_app; now left|]. repeat split; assumption.
  - intros w1 fuel Hfetch Hfuel.
    assert (Hloop : exists st,
               LoopLeft batch_size max_batches 1 (initial_state w) [] st
               /\ total_aligned st = 0 /\ total_failed st = 0
               /\ tracker st = start_run).
    { destruct (cap_reached max_batches 0) eqn:Hcap.
      - exists (initial_state w). split; [|repeat split].
        apply LeftBreak. unfold loop_iteration.
        cbn [initial_state batch_num]. now rewrite Hcap.
      - exists (begin_batch (initial_state w) w1). split; [|repeat split].
        apply LeftBreak. unfold loop_iteration.
        cbn [initial_state batch_num world]. now rewrite Hcap, Hfetch. }
    destruct Hloop as [st [Hloop [Ha [Hf Ht]]]].
    exists (finalize st).
    split; [exact (Hleft _ _ _ Hloop fuel ltac:(lia))|].
    cbn [finalize total_aligned total_failed tracker]. rewrite Ht.
    repeat split; assumption.
  - intros m fuel Hm Hpos Hfuel st.
    pose proof (@run_loop_cap_terminates m fuel (initial_state w) Hm Hpos)
      as Hterm.
    unfold run_pipeline.
    destruct (run_loop batch_size max_batches fuel (initial_state w))
      as [levs lo].
    cbn [snd initial_state batch_num] in Hterm.
    destruct lo as [st0|e st0|st0]; cbn [snd]; try discriminate.
    apply Hterm; lia.
Qed.

(** *** Records and the tracker's count *)

Lemma boundary_in_batch (tail p l : list Event) :
  Forall batch_event tail -> tail = p ++ l -> at_boundary l = true ->
  l = [].
Proof.
  intros Ht -> Hb. destruct l as [|ev l]; [reflexivity|].
  apply Forall_app in Ht as [_ Ht]. inversion Ht; subst.
  cbn [at_boundary] in Hb. now destruct ev.
Qed.

Lemma succeeded_from_cons (c : Z) (ev : Event) (t : list Event) :
  succeeded_from c (ev :: t)
  = succeeded_from (match ev with EvProgress _ s _ => s | _ => c end) t.
Proof. reflexivity. Qed.

(** One turn of the loop, from a state in which the tracker agrees with
    [total_aligned]: the turn's insertions are what [total_aligned] grows
    by, the tracker agrees again after it, and the only boundary among its
    events is its first one. *)
Lemma iter_case_counts (st : RunState) (evs : list Event) (step : Step) :
  IterCase batch_size max_batches st evs step ->
  items_succeeded (tracker st) = total_aligned st ->
  total_aligned st + records_inserted evs = total_aligned (step_state step)
  /\ succeeded_from (total_aligned st) evs = total_aligned (step_state step)
  /\ items_succeeded (tracker (step_state step))
     = total_aligned (step_state step)
  /\ (forall p l, evs = p ++ l -> l <> [] -> at_boundary l = true -> p = []).
Proof.
  intros [Hcap|w1 Hcap Hfetch|sp pairs w1 tail step' Hcap Hfetch Hbatch] Hinv.
  - cbn. repeat split; try lia; try assumption.
    intros p l Hpl. symmetry in Hpl. now apply app_eq_nil in Hpl.
  - cbn. repeat split; try lia; try assumption.
    intros p l Hpl. symmetry in Hpl. now apply app_eq_nil in Hpl.
  - apply batch_case_events in Hbatch as [Hev [Hins Htrk]].
    cbn [begin_batch total_aligned tracker] in Hins, Htrk.
    destruct (Htrk Hinv) as [Hs Ht].
    rewrite records_inserted_cons, succeeded_from_cons. cbn [is_insert].
    split; [lia|]. split; [exact Hs|]. split; [exact Ht|].
    intros [|ev p] l Hpl Hne Hb; [reflexivity|].
    cbn [app] in Hpl. inversion Hpl; subst.
    now rewrite (@boundary_in_batch _ p l Hev eq_refl Hb) in Hne.
Qed.

Lemma run_loop_boundaries (fuel : nat) (st : RunState) (evs : list Event)
  (o : Outcome) :
  run_loop batch_size max_batches fuel st = (evs, o) ->
  items_succeeded (tracker st) = total_aligned st ->
  (forall p rest, evs = p ++ rest -> at_boundary rest = true ->
     total_aligned st + records_inserted p
     = succeeded_from (total_aligned st) p)
  /\ total_aligned st + records_inserted evs = total_aligned (final_state o)
  /\ items_succeeded (tracker (final_state o))
     = total_aligned (final_state o).
Proof.
  revert st evs o; induction fuel as [|fuel IH]; intros st evs o;
    cbn [run_loop].
  - intros H Hinv; inversion H; subst. cbn. split; [|split; [lia|easy]].
    intros p rest Hpl _. symmetry in Hpl.
    apply app_eq_nil in Hpl as [-> _]. cbn. lia.
  - destruct (loop_iteration batch_size max_batches st) as [bevs step] eqn:E.
    apply loop_iteration_inv in E. intros H Hinv.
    destruct (iter_case_counts E Hinv) as [Hins [Hsuc [Hinv' Hbd]]].
    assert (Hlast : forall p rest,
               bevs = p ++ rest -> at_boundary rest = true ->
               total_aligned st + records_inserted p
               = succeeded_from (total_aligned st) p).
    { intros p [|ev rest] Hpl Hb.
      - rewrite app_nil_r in Hpl. subst p. now rewrite Hins, Hsuc.
      - rewrite (Hbd p (ev :: rest) Hpl ltac:(discriminate) Hb). cbn. lia. }
    destruct step as [st'|st'|e st']; cbn [step_state] in *.
    + inversion H; subst. split; [exact Hlast|]. split; assumption.
    + destruct (run_loop batch_size max_batches fuel st') as [evs' o']
        eqn:Hl.
      inversion H; subst. destruct (IH _ _ _ Hl Hinv') as [IHb [IHt IHi]].
      split; [|split; [rewrite records_inserted_app; lia|exact IHi]].
      intros p rest Hpl Hb.
      apply app_eq_app in Hpl as [l [[Hbevs Hrest]|[Hp Hevs']]].
      * destruct l as [|ev l].
        -- rewrite app_nil_r in Hbevs. subst p. cbn [app] in Hrest.
           now rewrite Hins, Hsuc.
        -- apply (Hlast p (ev :: l) Hbevs).
           subst rest. exact Hb.
      * subst p. rewrite records_inserted_app, succeeded_from_app, Hsuc.
        rewrite <- (IHb l rest Hevs' Hb). lia.
    + inversion H; subst. split; [exact Hlast|]. split; assumption.
Qed.

(** The boundaries of the loop's trace are those of the run's trace. *)
Lemma boundaries_of_run (levs tail : list Event) :
  (forall p rest, levs = p ++ rest -> at_boundary rest = true ->
     0 + records_inserted p = succeeded_from 0 p) ->
  tail = [] \/ tail = [EvComplete completed] ->
  forall p rest,
    EvStart :: levs ++ tail = p ++ rest -> at_boundary rest = true ->
    records_inserted p = tracker_succeeded p.
Proof.
  intros Hb Htail [|ev p] rest Hpl Hr; [reflexivity|].
  cbn [app] in Hpl. inversion Hpl as [[Hev Hrest]]. subst ev.
  rewrite records_inserted_cons. cbn [is_insert].
  unfold tracker_succeeded. rewrite succeeded_from_cons.
  apply app_eq_app in Hrest as [l [[Hlevs Hr']|[Hp Htl]]].
  - destruct l as [|ev l].
    + rewrite app_nil_r in Hlevs. subst p. now apply (Hb levs []);
        [rewrite app_nil_r|].
    + apply (Hb p (ev :: l) Hlevs). subst rest. exact Hr.
  - subst p. rewrite records_inserted_app, succeeded_from_app.
    specialize (Hb levs [] ltac:(now rewrite app_nil_r) eq_refl).
    destruct Htail as [->| ->].
    + symmetry in Htl. apply app_eq_nil in Htl as [-> _]. cbn. lia.
    + destruct l as [|ev l]; [cbn; lia|].
      inversion Htl as [[Hev Hl]]. symmetry in Hl.
      apply app_eq_nil in Hl as [-> _]. cbn. lia.
Qed.

(** C9, as the code has it: at every batch boundary of a run (when a batch
    begins, when the run is completed, when the trace ends) the records
    inserted so far are exactly the tracker's [items_succeeded]; at the
    end they are the run's [total_aligned], which is what the tracker
    holds; within [store_alignments] the counter [successful] is the
    number of records it inserted and [failed] the number of pairs it gave
    up on. *)
Theorem records_match_tracker_at_boundaries (fuel : nat) (w : World)
  (evs : list Event) (o : Outcome) :
  run_pipeline batch_size max_batches fuel w = (evs, o) ->
  (forall p rest, evs = p ++ rest -> at_boundary rest = true ->
     records_inserted p = tracker_succeeded p)
  /\ records_inserted evs = total_aligned (final_state o)
  /\ items_succeeded (tracker (final_state o)) = records_inserted evs
  /\ (forall w0 pairs fa ba sevs successful failed_count w',
        store_alignments w0 pairs fa ba
        = (sevs, (successful, failed_count), w') ->
        successful = records_inserted sevs
        /\ failed_count = store_failures sevs).
Proof.
  unfold run_pipeline.
  destruct (run_loop batch_size max_batches fuel (initial_state w))
    as [levs lo] eqn:Hl.
  destruct (run_loop_boundaries _ _ Hl eq_refl) as [Hb [Ht Hi]].
  cbn [initial_state total_aligned] in Hb, Ht.
  intros Hrun.
  assert (Htotal : records_inserted evs = total_aligned (final_state o)
                   /\ items_succeeded (tracker (final_state o))
                      = total_aligned (final_state o)).
  { destruct lo as [st|e st|st]; inversion Hrun; subst;
      rewrite records_inserted_cons;
      cbn [is_insert final_state finalize total_aligned tracker
           complete_run items_succeeded] in *;
      rewrite ?records_inserted_app; cbn; split; solve [lia|assumption]. }
  destruct Htotal as [Hrec Htrk].
  split; [|split; [exact Hrec|split; [now rewrite Hrec|]]].
  - destruct lo as [st|e st|st]; inversion Hrun; subst.
    + apply boundaries_of_run; [exact Hb|now right].
    + rewrite <- (app_nil_r levs). apply boundaries_of_run;
        [exact Hb|now left].
    + rewrite <- (app_nil_r levs). apply boundaries_of_run;
        [exact Hb|now left].
  - intros w0 pairs fa ba sevs successful failed_count w' Hs.
    unfold store_alignments in Hs.
    apply store_loop_counts in Hs as [H1 [H2 _]]. lia.
Qed.

End Run.

(** ** The scripted worlds *)

(** The forward invocation succeeds and the backward one exits with status
    one. *)
Lemma failed_invocation_fails_batch_witness :
  exists evs st',
    loop_iteration (ext := Scripted.backward_failing_world) 1000 None
      (initial_state [[Scripted.spec_pair]]) = (evs, Continue st')
    /\ records_inserted evs = 0
    /\ total_failed st' = 1
    /\ total_aligned st' = 0.
Proof.
  destruct (@failed_invocation_fails_batch
              _ Scripted.backward_failing_world 1000 None
              (initial_state [[Scripted.spec_pair]])
              Scripted.spec_pair [] [] [] [] _ _ _ _
              eq_refl eq_refl (or_intror (conj eq_refl eq_refl)))
    as [evs [st' [H1 [H2 [H3 [H4 _]]]]]].
  exists evs, st'. split; [exact H1|]. split; [exact H2|].
  split; [exact H3|exact H4].
Defined.


(** The whole run of that world: it is completed with one pair counted
    failed by the loop and none by the tracker. *)
Example failed_batch_is_not_reported :
  forallb (fun ev => negb (is_progress ev))
    (fst (run_pipeline (ext := Scripted.forward_failing_world) 1000 None 5
            [[Scripted.spec_pair]])) = true
  /\ exists st,
       snd (run_pipeline (ext := Scripted.forward_failing_world) 1000 None 5
              [[Scripted.spec_pair]]) = Finished st
       /\ total_failed st = 1
       /\ items_failed (tracker st) = 0
       /\ status (tracker st) = completed.
Proof.
  split; [vm_compute; reflexivity|].
  eexists. split; [vm_compute; reflexivity|]. repeat split.
Qed.


(** C6, as stated, fails on a forward output with the token [1:1]: the
    turn does not go on to the next batch. *)
Lemma malformed_output_fails_batch_fails :
  ~ malformed_output_fails_batch (ext := Scripted.malformed_world)
      1000 None (initial_state [[Scripted.spec_pair]; [Scripted.spec_pair]]).
Proof.
  intros H.
  destruct (H Scripted.spec_pair [] [[Scripted.spec_pair]] _ _
              [[Scripted.spec_pair]] _ _ [[Scripted.spec_pair]]
              eq_refl eq_refl eq_refl eq_refl (or_introl eq_refl))
    as [evs [st' [E _]]].
  vm_compute in E. discriminate.
Qed.

(** The run stops at the first batch; the second one is never fetched. *)
Lemma malformed_output_aborts_run_witness :
  exists evs st,
    run_loop (ext := Scripted.malformed_world) 1000 None 5
      (initial_state [[Scripted.spec_pair]; [Scripted.spec_pair]])
    = (evs, Raised ValueError st)
    /\ world st = [[Scripted.spec_pair]]
    /\ total_failed st = 0
    /\ tracker st = start_run.
Proof.
  destruct (@malformed_output_aborts_run
              _ Scripted.malformed_world 1000 None
              (initial_state [[Scripted.spec_pair]; [Scripted.spec_pair]])
              Scripted.spec_pair [] [[Scripted.spec_pair]]
              [[Scripted.spec_pair]] [[Scripted.spec_pair]] _ _ _ _
              eq_refl eq_refl eq_refl eq_refl (or_introl eq_refl))
    as [_ Hrun].
  eexists _, _. split; [exact (Hrun 4%nat)|]. repeat split.
Defined.

(** C7, as stated, fails when the binary is not found: the exception is
    not turned into a returned value. *)
Lemma failure_is_returned_fails :
  ~ failure_is_returned false Scripted.missing_binary.
Proof. unfold failure_is_returned. cbn. discriminate. Qed.

(** Exit status one: [False] is returned and the error stream logged. *)
Lemma run_fast_align_result_witness :
  exists evs out,
    run_fast_align (ext := Scripted.forward_failing_world)
      [] (lit "a ||| x") false
    = (evs, Ok false, out, [])
    /\ In (EvLogError (lit "fast_align failed: fast_align: log")) evs.
Proof.
  destruct (@run_fast_align_result
              _ Scripted.forward_failing_world [] [] (lit "a ||| x") false
              _ eq_refl)
    as [evs [res [out [Hrun [Hres [_ [_ [_ [Hlog _]]]]]]]]].
  exists evs, out. split; [rewrite Hrun, Hres; reflexivity|].
  apply Hlog. discriminate.
Defined.

(** An error stream that does not decode, at exit status zero: the
    exception escapes [run_fast_align], and the run with it. *)
Example undecodable_stderr_raises :
  snd (fst (run_fast_align_on false Scripted.undecodable_stderr))
  = Raise UnicodeDecodeError
  /\ exists st,
       snd (run_pipeline (ext := Scripted.undecodable_world) 1000 None 5
              [[Scripted.spec_pair]])
       = Raised UnicodeDecodeError st.
Proof. split; [reflexivity|]. eexists. reflexivity. Qed.

(** A run whose only batch fails in the forward invocation: the loop is
    left at its second turn and the run is completed, one pair counted as
    failed. *)
Lemma run_completes_witness :
  exists levs st,
    LoopLeft (ext := Scripted.forward_failing_world) 1000 None 2
      (initial_state [[Scripted.spec_pair]]) levs st
    /\ aligner_failed levs = true
    /\ run_pipeline (ext := Scripted.forward_failing_world) 1000 None 5
         [[Scripted.spec_pair]]
       = (EvStart :: levs ++ [EvComplete completed], Finished (finalize st))
    /\ status (tracker (finalize st)) = completed
    /\ total_aligned (finalize st) = 0
    /\ total_failed (finalize st) = 1.
Proof.
  assert (Hloop : exists levs st,
             LoopLeft (ext := Scripted.forward_failing_world) 1000 None 2
               (initial_state [[Scripted.spec_pair]]) levs st
             /\ aligner_failed levs = true
             /\ total_aligned st = 0 /\ total_failed st = 1).
  { eexists _, _. split; [|split; [|split]].
    - eapply LeftContinue; [reflexivity|]. eapply LeftBreak. reflexivity.
    - reflexivity.
    - reflexivity.
    - reflexivity. }
  destruct Hloop as [levs [st [Hloop [Hfail [Ha Hf]]]]].
  exists levs, st.
  destruct (proj1 (@run_completes
                     _ Scripted.forward_failing_world 1000 None
                     [[Scripted.spec_pair]])
              2%nat levs st Hloop 5%nat ltac:(lia))
    as [Hrun [_ [Hs [Ha' Hf']]]].
  split; [exact Hloop|]. split; [exact Hfail|]. split; [exact Hrun|].
  split; [exact Hs|]. split; congruence.
Defined.

(** C9, as stated, fails in the three-token scenario: after the insertion
    and before the progress update, one record is in the database and the
    tracker's count is zero. *)
Lemma records_never_exceed_tracker_fails :
  ~ records_never_exceed_tracker (fst Scripted.spec_run).
Proof.
  intros H.
  specialize (H (firstn 5 (fst Scripted.spec_run))
                (skipn 5 (fst Scripted.spec_run))
                (eq_sym (firstn_skipn 5 _))).
  vm_compute in H. now apply H.
Qed.

(** At the completion of the three-token scenario one record is in the
    database and the tracker's count is one. *)
Lemma records_match_tracker_at_boundaries_witness :
  records_inserted (firstn 6 (fst Scripted.spec_run)) = 1
  /\ tracker_succeeded (firstn 6 (fst Scripted.spec_run)) = 1.
Proof.
  destruct (@records_match_tracker_at_boundaries
              _ Scripted.spec_world 1000 None 5 [[Scripted.spec_pair]] _ _
              (surjective_pairing Scripted.spec_run))
    as [Hb _].
  specialize (Hb (firstn 6 (fst Scripted.spec_run))
                 (skipn 6 (fst Scripted.spec_run))
                 (eq_sym (firstn_skipn 6 _)) eq_refl).
  split; [reflexivity|]. rewrite <- Hb. reflexivity.
Defined.

(** * Further properties of the pipeline *)

(** ** What the parser returns *)

Section MapMValues.

Context {A B : Type} (f : A -> Result B) (g : A -> B).

Lemma mapM_values (l : list A) :
  Forall (fun x => f x = Ok (g x)) l -> mapM f l = Ok (map g l).
Proof.
  induction 1 as [|x l Hx _ IH]; cbn [mapM map]; [reflexivity|].
  now rewrite Hx, IH.
Qed.

End MapMValues.

Lemma int_digits_value (s : str) (acc : Z) :
  forallb is_digit s = true ->
  int_digits acc false s
  = Some (fold_left (fun a c => 10 * a + digit_value c) s acc).
Proof.
  revert acc; induction s as [|c s IH]; cbn [int_digits fold_left forallb];
    intros acc H; [reflexivity|].
  apply andb_true_iff in H as [Hc H]. rewrite Hc. now apply IH.
Qed.

(** [int] reads a non-empty string of digits within the cap as its decimal
    value. *)
Lemma int_decimal (s : str) :
  nonempty s = true -> forallb is_digit s = true -> within_cap s = true ->
  int s = Some (decimal s).
Proof.
  intros Hne H Hcap. unfold int. rewrite (strip_digits _ H).
  destruct s as [|c s]; [discriminate|].
  rewrite (int_unsigned_digits _ _ H Hcap).
  cbn [forallb] in H. apply andb_true_iff in H as [Hc H].
  destruct (digit_not_sign _ Hc) as [Hm Hp]. rewrite Hm, Hp.
  rewrite (int_digits_value _ _ H).
  unfold decimal. cbn [fold_left]. reflexivity.
Qed.

Lemma parse_pair_value (tok : str) :
  is_index_pair tok = true -> parse_pair tok = Ok (token_value tok).
Proof.
  unfold is_index_pair, token_value.
  destruct (span_digits_spec tok) as [Htok Ha].
  destruct (span_digits tok) as [a rest]; cbn [fst snd] in *.
  destruct rest as [|c b]; [discriminate|]. intros H.
  repeat (apply andb_true_iff in H as [H ?]).
  unfold is_char in H. apply Ascii.eqb_eq in H; subst c.
  unfold parse_pair, split_on. rewrite Htok.
  rewrite split_on_from_one by now apply digits_no_dash.
  cbn [rev app tl]. now rewrite !int_decimal.
Qed.

(** X1: on an output that follows the aligner's grammar the parser returns,
    line by line and token by token, the pair of decimal values written on
    either side of each separator. *)
Theorem parse_alignment_output_values (content : str) :
  well_formed_output content = true ->
  parse_alignment_output content
  = Ok (map (fun line => map token_value (split_ws line))
            (file_lines content)).
Proof.
  unfold well_formed_output, parse_alignment_output. intros H.
  rewrite forallb_forall in H. apply mapM_values, Forall_forall.
  intros line Hline. rewrite parse_line_tokens.
  apply mapM_values, Forall_forall. intros tok Htok.
  apply parse_pair_value. specialize (H line Hline).
  unfold well_formed_line in H. rewrite forallb_forall in H. now apply H.
Qed.

Lemma parse_alignment_output_values_witness :
  parse_alignment_output (lit "10-007 2-3" ++ [newline; newline])
  = Ok [[(10, 7); (2, 3)]; []].
Proof.
  exact (parse_alignment_output_values
           (lit "10-007 2-3" ++ [newline; newline]) eq_refl).
Defined.

Section MapMForall.

Context {A B : Type} (f : A -> Result B) (P : B -> Prop).

Lemma mapM_Forall (l : list A) (r : list B) :
  (forall x y, In x l -> f x = Ok y -> P y) ->
  mapM f l = Ok r -> Forall P r.
Proof.
  revert r; induction l as [|x l IH]; cbn [mapM]; intros r HP H.
  - inversion H; constructor.
  - destruct (f x) as [y|e] eqn:Hy; cbn [bind] in H; [|discriminate].
    destruct (mapM f l) as [ys|e]; cbn [bind] in H; [|discriminate].
    inversion H; subst. constructor.
    + apply (HP x); [now left|exact Hy].
    + apply IH; [|reflexivity]. intros x' y' Hin. apply HP. now right.
Qed.

End MapMForall.

Lemma digit_value_range (c : ascii) :
  is_digit c = true -> 0 <= digit_value c <= 9.
Proof.
  unfold is_digit, digit_value. intros H.
  apply andb_true_iff in H as [H1 H2].
  apply Z.leb_le in H1, H2. lia.
Qed.

Lemma int_digits_nonneg (s : str) (acc v : Z) (us : bool) :
  0 <= acc -> int_digits acc us s = Some v -> 0 <= v.
Proof.
  revert acc us; induction s as [|c s IH]; cbn [int_digits]; intros acc us Ha.
  - destruct us; [discriminate|]. now intros [= <-].
  - destruct (is_digit c) eqn:Hc.
    + apply IH. pose proof (digit_value_range _ Hc). lia.
    + destruct (is_char "_" c); [|discriminate].
      destruct us; [discriminate|]. now apply IH.
Qed.

Lemma int_unsigned_nonneg (s : str) (v : Z) :
  int_unsigned s = Some v -> 0 <= v.
Proof.
  destruct s as [|c s]; cbn [int_unsigned]; [discriminate|].
  destruct (is_digit c) eqn:Hc; [|discriminate].
  destruct (_ <=? int_max_str_digits); [|discriminate].
  apply int_digits_nonneg. pose proof (digit_value_range _ Hc). lia.
Qed.

Lemma strip_incl (s : str) (c : ascii) : In c (strip s) -> In c s.
Proof.
  unfold strip. intros H.
  destruct (lstrip_split s) as [ws1 [H1 _]].
  destruct (rstrip_split (lstrip s)) as [ws2 [H2 _]].
  rewrite H1, H2. apply in_or_app. right. apply in_or_app. now left.
Qed.

(** A number read from a string without minus sign is not negative. *)
Lemma int_nonneg (s : str) (v : Z) :
  (forall c, In c s -> is_char "-" c = false) ->
  int s = Some v -> 0 <= v.
Proof.
  intros Hs. unfold int. destruct (strip s) as [|c r] eqn:E; [discriminate|].
  destruct (is_char "+" c); [apply int_unsigned_nonneg|].
  destruct (is_char "-" c) eqn:Hm; [|apply int_unsigned_nonneg].
  rewrite Hs in Hm; [discriminate|].
  apply strip_incl. rewrite E. now left.
Qed.

Lemma split_on_from_parts (sep : ascii) (s cur : str) :
  (forall c, In c cur -> is_char sep c = false) ->
  Forall (fun part => forall c, In c part -> is_char sep c = false)
         (split_on_from sep cur s).
Proof.
  revert cur; induction s as [|c s IH]; cbn [split_on_from]; intros cur Hcur.
  - constructor; [|constructor]. intros x Hx. apply Hcur. now apply in_rev.
  - destruct (is_char sep c) eqn:Hc.
    + constructor.
      * intros x Hx. apply Hcur. now apply in_rev.
      * apply IH. intros x [].
    + apply IH. intros x [<-|Hx]; [exact Hc|now apply Hcur].
Qed.

Lemma parse_pair_nonneg (tok : str) (i j : Z) :
  parse_pair tok = Ok (i, j) -> 0 <= i /\ 0 <= j.
Proof.
  unfold parse_pair, split_on.
  pose proof (@split_on_from_parts "-" tok [] ltac:(intros c [])) as Hparts.
  destruct (split_on_from "-" [] tok) as [|a [|b [|c l]]]; try discriminate.
  inversion Hparts as [|? ? Ha Hrest]; subst.
  inversion Hrest as [|? ? Hb _]; subst.
  destruct (int a) as [x|] eqn:Hx; [|discriminate].
  destruct (int b) as [y|] eqn:Hy; [|discriminate].
  intros [= <- <-].
  split; [exact (@int_nonneg a x Ha Hx)|exact (@int_nonneg b y Hb Hy)].
Qed.

Lemma parsed_indices_nonneg_aux (content : str) (r : list (list (Z * Z))) :
  parse_alignment_output content = Ok r ->
  Forall (Forall (fun a => 0 <= fst a /\ 0 <= snd a)) r.
Proof.
  unfold parse_alignment_output. apply mapM_Forall.
  intros line ps _. rewrite parse_line_tokens. apply mapM_Forall.
  intros tok [i j] _ H. now apply parse_pair_nonneg in H.
Qed.

(** X2: the indices the parser returns are never negative: the minus sign
    is the separator, so no component can carry one; a component may carry
    a plus sign or single underscores between its digits. *)
Theorem parsed_indices_nonneg (content : str) (r : list (list (Z * Z))) :
  parse_alignment_output content = Ok r ->
  Forall (Forall (fun a => 0 <= fst a /\ 0 <= snd a)) r.
Proof. apply parsed_indices_nonneg_aux. Qed.

Lemma parsed_indices_nonneg_witness :
  Forall (Forall (fun a => 0 <= fst a /\ 0 <= snd a)) [[(1, 2)]; [(3, 10)]].
Proof.
  exact (@parsed_indices_nonneg
           (lit "+1-2" ++ [newline] ++ lit "3-1_0") _ eq_refl).
Defined.

Lemma parse_pair_well_formed (tok : str) :
  malformed tok = false -> exists p, parse_pair tok = Ok p.
Proof.
  unfold malformed, separators, parse_pair, split_on.
  pose proof (split_on_from_length "-" tok []) as Hlen.
  intros H. apply orb_false_iff in H as [Hsep Hnum].
  apply negb_false_iff, Nat.eqb_eq in Hsep. rewrite Hsep in Hlen.
  destruct (split_on_from "-" [] tok) as [|a [|b [|c l]]]; try discriminate.
  cbn [existsb] in Hnum. unfold not_a_number in Hnum.
  destruct (int a) as [i|]; [|discriminate].
  destruct (int b) as [j|]; [|discriminate]. now exists (i, j).
Qed.

(** X3: the parser raises exactly when some token of some line is
    malformed (no separator, more than one, or a component that [int]
    rejects); the exception is then [ValueError], and otherwise a list is
    returned. *)
Theorem parse_fails_iff_malformed (content : str) :
  (parse_alignment_output content = Raise ValueError
   <-> has_malformed content = true)
  /\ ((exists r, parse_alignment_output content = Ok r)
      <-> has_malformed content = false)
  /\ (forall e, parse_alignment_output content = Raise e -> e = ValueError).
Proof.
  assert (Hok : has_malformed content = false ->
                exists r, parse_alignment_output content = Ok r).
  { intros H. unfold parse_alignment_output. apply mapM_total.
    apply Forall_forall. intros line Hline. rewrite parse_line_tokens.
    apply mapM_total, Forall_forall. intros tok Htok.
    apply parse_pair_well_formed. apply not_true_is_false. intros Hm.
    enough (has_malformed content = true) by congruence.
    unfold has_malformed. apply existsb_exists. exists line.
    split; [exact Hline|]. apply existsb_exists. now exists tok. }
  split; [|split].
  - split; [|apply has_malformed_raises].
    intros H. destruct (has_malformed content); [reflexivity|].
    destruct (Hok eq_refl) as [r Hr]. congruence.
  - split; [|exact Hok].
    intros [r Hr]. destruct (has_malformed content) eqn:Hm; [|reflexivity].
    apply has_malformed_raises in Hm. congruence.
  - apply parse_alignment_output_ValueError.
Qed.

Lemma parse_fails_iff_malformed_witness :
  parse_alignment_output (lit "0-0" ++ [newline] ++ lit "1-2-3")
  = Raise ValueError.
Proof.
  apply (proj1 (parse_fails_iff_malformed _)). reflexivity.
Defined.

(** ** The aligner's input file *)

Lemma universal_newlines_id (s : str) :
  forallb (fun c => negb (is_char "013" c)) s = true ->
  universal_newlines s = s.
Proof.
  induction s as [|c s IH]; cbn [universal_newlines forallb]; [easy|].
  intros H. apply andb_true_iff in H as [Hc H].
  apply negb_true_iff in Hc. rewrite Hc. now rewrite IH.
Qed.

Lemma lines_from_line (l rest cur : str) :
  forallb (fun c => negb (is_char "010" c)) l = true ->
  lines_from cur (l ++ newline :: rest)
  = (rev cur ++ l ++ [newline]) :: lines_from [] rest.
Proof.
  revert cur; induction l as [|c l IH]; cbn [lines_from forallb app];
    intros cur H.
  - reflexivity.
  - apply andb_true_iff in H as [Hc H]. apply negb_true_iff in Hc.
    rewrite Hc, (IH _ H). cbn [rev]. now rewrite <- app_assoc.
Qed.

Lemma single_line_parts (s : str) :
  single_line s = true ->
  forallb (fun c => negb (is_char "010" c)) s = true
  /\ forallb (fun c => negb (is_char "013" c)) s = true.
Proof.
  unfold single_line. rewrite !forallb_forall. intros H.
  split; intros c Hc; specialize (H c Hc);
    apply andb_true_iff in H; tauto.
Qed.

Lemma input_line_app (pair : SentencePair) (rest : str) :
  input_line pair ++ rest
  = (purepecha_text pair ++ lit " ||| " ++ spanish_text pair)
      ++ newline :: rest.
Proof. unfold input_line. now rewrite <- !app_assoc. Qed.

(** X4: when no text of the batch contains a line break, the file
    [prepare_alignment_input] writes has exactly one line per sentence
    pair, in batch order, line [i] being [source ||| target] of pair
    [i]. *)
Theorem prepare_alignment_input_lines (sentence_pairs : list SentencePair) :
  (forall pair, In pair sentence_pairs ->
     single_line (purepecha_text pair) = true
     /\ single_line (spanish_text pair) = true) ->
  file_lines (prepare_alignment_input sentence_pairs)
  = map input_line sentence_pairs
  /\ length (file_lines (prepare_alignment_input sentence_pairs))
     = length sentence_pairs.
Proof.
  intros H.
  assert (Hlines : file_lines (prepare_alignment_input sentence_pairs)
                   = map input_line sentence_pairs).
  { unfold file_lines, prepare_alignment_input.
    change (fun pair : SentencePair =>
              purepecha_text pair ++ lit " ||| " ++ spanish_text pair
              ++ [newline]) with input_line.
    rewrite universal_newlines_id.
    - induction sentence_pairs as [|p ps IH]; [reflexivity|].
      cbn [map concat]. destruct (H p (or_introl eq_refl)) as [Hp Hs].
      apply single_line_parts in Hp as [Hp _], Hs as [Hs _].
      rewrite input_line_app, lines_from_line.
      + cbn [rev app]. rewrite IH by (intros q Hq; apply H; now right).
        unfold input_line at 2. now rewrite <- !app_assoc.
      + rewrite !forallb_app, Hp, Hs. reflexivity.
    - induction sentence_pairs as [|p ps IH]; [reflexivity|].
      cbn [map concat]. destruct (H p (or_introl eq_refl)) as [Hp Hs].
      apply single_line_parts in Hp as [_ Hp], Hs as [_ Hs].
      unfold input_line at 1.
      rewrite !forallb_app, Hp, Hs, IH by (intros q Hq; apply H; now right).
      reflexivity. }
  split; [exact Hlines|]. now rewrite Hlines, length_map.
Qed.

Lemma prepare_alignment_input_lines_witness :
  file_lines (prepare_alignment_input
                [Scripted.spec_pair; Scripted.noise_pair])
  = [lit "a b c ||| x y" ++ [newline]; lit "a ||| x" ++ [newline]].
Proof.
  apply (proj1 (@prepare_alignment_input_lines
                  [Scripted.spec_pair; Scripted.noise_pair]
                  ltac:(intros pair [<-|[<-|[]]]; split; reflexivity))).
Defined.

(** A text with a line break in it gives the file one line more than the
    batch has pairs. *)
Example prepare_alignment_input_broken_text :
  length (file_lines (prepare_alignment_input
                        [Scripted.sentence 3 "a
b" "x"; Scripted.spec_pair]))
  = 3%nat.
Proof. reflexivity. Qed.

(** ** The forward payload *)

Lemma py_index_outcome {A} (l : list A) (i : Z) :
  i < Z.of_nat (length l) ->
  (off_front l i = true -> py_index l i = Raise IndexError)
  /\ (off_front l i = false -> exists x, py_index l i = Ok x).
Proof.
  intros Hi. unfold off_front, py_index. split; intros H.
  - apply Z.ltb_lt in H.
    destruct (i <? 0) eqn:Hneg; [|apply Z.ltb_ge in Hneg; lia].
    destruct (0 <=? i + Z.of_nat (length l)) eqn:Hj; [|reflexivity].
    apply Z.leb_le in Hj. lia.
  - apply Z.ltb_ge in H.
    set (j := if i <? 0 then i + Z.of_nat (length l) else i).
    assert (Hj : 0 <= j < Z.of_nat (length l)).
    { unfold j. destruct (i <? 0) eqn:Hneg;
        [apply Z.ltb_lt in Hneg|apply Z.ltb_ge in Hneg]; lia. }
    replace ((0 <=? j) && (j <? Z.of_nat (length l))) with true
      by (symmetry; apply andb_true_iff; split;
          [apply Z.leb_le|apply Z.ltb_lt]; lia).
    destruct (nth_error l (Z.to_nat j)) as [x|] eqn:Hn; [now exists x|].
    apply nth_error_None in Hn. lia.
Qed.

Lemma forward_entries_outcome_aux (src_tokens tgt_tokens : list str)
  (fwd_align : list (Z * Z)) :
  (existsb (falls_off src_tokens tgt_tokens) fwd_align = true ->
   forward_entries src_tokens tgt_tokens fwd_align = Raise IndexError)
  /\ (existsb (falls_off src_tokens tgt_tokens) fwd_align = false ->
      exists es,
        forward_entries src_tokens tgt_tokens fwd_align = Ok es
        /\ map (fun e => (src_idx e, tgt_idx e)) es
           = filter (passes_filter src_tokens tgt_tokens) fwd_align
        /\ Forall (fun e =>
                     py_index src_tokens (src_idx e) = Ok (src_token e)
                     /\ py_index tgt_tokens (tgt_idx e) = Ok (tgt_token e))
                  es).
Proof.
  induction fwd_align as [|[src tgt] rest [IHbad IHgood]];
    cbn [forward_entries existsb filter].
  - split; [discriminate|]. intros _. exists []. repeat split. constructor.
  - assert (Hp : passes_filter src_tokens tgt_tokens (src, tgt)
                 = (src <? Z.of_nat (length src_tokens))
                   && (tgt <? Z.of_nat (length tgt_tokens)))
      by reflexivity.
    assert (Hf : falls_off src_tokens tgt_tokens (src, tgt)
                 = (src <? Z.of_nat (length src_tokens))
                   && (tgt <? Z.of_nat (length tgt_tokens))
                   && (off_front src_tokens src || off_front tgt_tokens tgt))
      by reflexivity.
    rewrite Hf, Hp. clear Hf Hp.
    destruct (src <? Z.of_nat (length src_tokens)) eqn:Hs;
      [destruct (tgt <? Z.of_nat (length tgt_tokens)) eqn:Ht|];
      cbn [andb orb]; try (split; [exact IHbad|exact IHgood]).
    apply Z.ltb_lt in Hs, Ht.
    destruct (@py_index_outcome _ src_tokens src Hs) as [Hs1 Hs2].
    destruct (@py_index_outcome _ tgt_tokens tgt Ht) as [Ht1 Ht2].
    destruct (off_front src_tokens src) eqn:Hos.
    + cbn [orb]. split; [|discriminate]. intros _. now rewrite Hs1.
    + destruct (Hs2 eq_refl) as [s Hsx]. rewrite Hsx. cbn [bind orb].
      destruct (off_front tgt_tokens tgt) eqn:Hot.
      * cbn [orb]. split; [|discriminate]. intros _. now rewrite Ht1.
      * destruct (Ht2 eq_refl) as [t Htx]. rewrite Htx. cbn [bind orb].
        split.
        -- intros H. now rewrite (IHbad H).
        -- intros H. destruct (IHgood H) as [es [Hes [Hmap Hall]]].
           rewrite Hes. cbn [bind]. eexists. split; [reflexivity|].
           cbn [map src_idx tgt_idx]. rewrite Hmap.
           split; [reflexivity|]. constructor; [|exact Hall].
           cbn [src_idx tgt_idx src_token tgt_token]. now split.
Qed.

(** X5: the comprehension that builds the forward payload raises
    [IndexError] exactly when an alignment passes the range test with an
    index below minus the number of tokens; otherwise it returns the
    alignments that pass the test, in order, each with the tokens Python
    indexing finds at its two indices (a negative index counting from the
    end). *)
Theorem forward_entries_outcome (src_tokens tgt_tokens : list str)
  (fwd_align : list (Z * Z)) :
  (existsb (falls_off src_tokens tgt_tokens) fwd_align = true ->
   forward_entries src_tokens tgt_tokens fwd_align = Raise IndexError)
  /\ (existsb (falls_off src_tokens tgt_tokens) fwd_align = false ->
      exists es,
        forward_entries src_tokens tgt_tokens fwd_align = Ok es
        /\ map (fun e => (src_idx e, tgt_idx e)) es
           = filter (passes_filter src_tokens tgt_tokens) fwd_align
        /\ Forall (fun e =>
                     py_index src_tokens (src_idx e) = Ok (src_token e)
                     /\ py_index tgt_tokens (tgt_idx e) = Ok (tgt_token e))
                  es).
Proof. apply forward_entries_outcome_aux. Qed.

(** An index below minus the number of tokens fails the pair; an index of
    minus one reads the last token. *)
Lemma forward_entries_outcome_witness :
  forward_entries [lit "a"; lit "b"] [lit "x"] [(0, 0); (-3, 0)]
  = Raise IndexError
  /\ exists es,
       forward_entries [lit "a"; lit "b"] [lit "x"] [(-1, 0); (2, 0)] = Ok es
       /\ map (fun e => (src_idx e, src_token e)) es = [(-1, lit "b")].
Proof.
  split.
  - apply (proj1 (forward_entries_outcome _ _ _)). reflexivity.
  - destruct (proj2 (forward_entries_outcome
                       [lit "a"; lit "b"] [lit "x"] [(-1, 0); (2, 0)])
                    eq_refl) as [es [Hes _]].
    exists es. split; [exact Hes|].
    vm_compute in Hes. now inversion Hes.
Defined.

Lemma parsed_alignment_builds_record_aux (content : str)
  (fas : list (list (Z * Z))) (fa ba : list (Z * Z)) (sp : SentencePair) :
  parse_alignment_output content = Ok fas -> In fa fas ->
  exists r,
    build_record sp fa ba = Ok r
    /\ map (fun e => (src_idx e, tgt_idx e)) (forward (word_alignments r))
       = filter (passes_filter (split_ws (purepecha_text sp))
                               (split_ws (spanish_text sp))) fa.
Proof.
  intros Hparse Hin.
  pose proof (parsed_indices_nonneg_aux _ Hparse) as Hnn.
  rewrite Forall_forall in Hnn. specialize (Hnn fa Hin).
  destruct (proj2 (forward_entries_outcome_aux
                     (split_ws (purepecha_text sp))
                     (split_ws (spanish_text sp)) fa))
    as [es [Hes [Hmap _]]].
  { apply not_true_is_false. intros Hex.
    apply existsb_exists in Hex as [[i j] [Ha Hf]].
    rewrite Forall_forall in Hnn. specialize (Hnn _ Ha). cbn [fst snd] in Hnn.
    unfold falls_off, off_front in Hf. cbn [fst snd] in Hf.
    apply andb_true_iff in Hf as [_ Hf].
    apply orb_true_iff in Hf as [Hf|Hf]; apply Z.ltb_lt in Hf; lia. }
  unfold build_record. rewrite Hes. cbn [bind]. eexists.
  split; [reflexivity|exact Hmap].
Qed.

(** X6: the alignments the parser returns never fail a pair: whatever the
    sentence pair and the backward alignment, [store_alignments] builds
    its record from them without raising, the forward payload holding the
    alignments that are in range. *)
Theorem parsed_alignment_builds_record (content : str)
  (fas : list (list (Z * Z))) (fa ba : list (Z * Z)) (sp : SentencePair) :
  parse_alignment_output content = Ok fas -> In fa fas ->
  exists r,
    build_record sp fa ba = Ok r
    /\ map (fun e => (src_idx e, tgt_idx e)) (forward (word_alignments r))
       = filter (passes_filter (split_ws (purepecha_text sp))
                               (split_ws (spanish_text sp))) fa.
Proof. apply parsed_alignment_builds_record_aux. Qed.

Lemma parsed_alignment_builds_record_witness :
  exists r,
    build_record Scripted.noise_pair [(5, 5); (0, 0)] [] = Ok r
    /\ map (fun e => (src_idx e, tgt_idx e)) (forward (word_alignments r))
       = [(0, 0)].
Proof.
  exact (@parsed_alignment_builds_record
           (lit "5-5 0-0") _ [(5, 5); (0, 0)] [] Scripted.noise_pair
           eq_refl (or_introl eq_refl)).
Defined.

(** ** Storing a batch, pair by pair *)

Lemma nth_error_combine_inv {A B} (l : list A) (l' : list B) (k : nat)
  (x : A) (y : B) :
  nth_error (combine l l') k = Some (x, y) ->
  nth_error l k = Some x /\ nth_error l' k = Some y.
Proof.
  revert l' k; induction l as [|a l IH]; intros [|b l'] [|k];
    cbn [combine nth_error]; try discriminate.
  - intros H; inversion H; subst. now split.
  - apply IH.
Qed.

Lemma build_record_identity (sp : SentencePair) (fa ba : list (Z * Z))
  (r : AlignmentRecord) :
  build_record sp fa ba = Ok r ->
  rec_purepecha_sentence_id r = purepecha_sentence_id sp
  /\ rec_spanish_sentence_id r = spanish_sentence_id sp
  /\ alignment_method r = lit "fast_align"
  /\ backward (word_alignments r) = backward_entries ba.
Proof.
  unfold build_record.
  destruct (forward_entries _ _ fa) as [fwd|e]; cbn [bind]; [|discriminate].
  intros H; inversion H; subst; cbn. repeat split.
Qed.

Section Storing.

Context {World : Type} {ext : External World}.

Lemma store_loop_total (items : list (SentencePair * list (Z * Z)
                                      * list (Z * Z)))
  (w w' : World) (s f s' f' : Z) (evs : list Event) :
  store_loop w items s f = (evs, (s', f'), w') ->
  s' + f' = s + f + Z.of_nat (length items)
  /\ length evs = length items
  /\ s <= s' /\ f <= f'.
Proof.
  revert w s f evs; induction items as [|[[sp fa] ba] items IH];
    intros w s f evs; cbn [store_loop].
  - intros H; inversion H; subst. cbn. lia.
  - destruct (build_record sp fa ba) as [r|e].
    + destruct (insert_alignment w r) as [[u|e] w1].
      * destruct (store_loop w1 items (s + 1) f) as [[evs1 c1] w2] eqn:Hl.
        intros H; inversion H; subst.
        destruct (IH _ _ _ _ Hl) as [H1 [H2 [H3 H4]]].
        cbn [length]. rewrite H2. lia.
      * destruct (store_loop w1 items s (f + 1)) as [[evs1 c1] w2] eqn:Hl.
        intros H; inversion H; subst.
        destruct (IH _ _ _ _ Hl) as [H1 [H2 [H3 H4]]].
        cbn [length]. rewrite H2. lia.
    + destruct (store_loop w items s (f + 1)) as [[evs1 c1] w2] eqn:Hl.
      intros H; inversion H; subst.
      destruct (IH _ _ _ _ Hl) as [H1 [H2 [H3 H4]]].
      cbn [length]. rewrite H2. lia.
Qed.

Lemma store_loop_origin (items : list (SentencePair * list (Z * Z)
                                       * list (Z * Z)))
  (w w' : World) (s f : Z) (counts : Z * Z) (evs : list Event)
  (r : AlignmentRecord) :
  store_loop w items s f = (evs, counts, w') ->
  In (EvInsert r) evs ->
  exists sp fa ba, In (sp, fa, ba) items /\ build_record sp fa ba = Ok r.
Proof.
  revert w s f evs; induction items as [|[[sp fa] ba] items IH];
    intros w s f evs; cbn [store_loop].
  - intros H; inversion H; subst. contradiction.
  - destruct (build_record sp fa ba) as [r0|e] eqn:Hr.
    + destruct (insert_alignment w r0) as [[u|e] w1].
      * destruct (store_loop w1 items (s + 1) f) as [[evs1 c1] w2] eqn:Hl.
        intros H; inversion H; subst. intros [Hin|Hin].
        -- inversion Hin; subst. exists sp, fa, ba. split; [now left|easy].
        -- destruct (IH _ _ _ _ Hl Hin) as [sp' [fa' [ba' [Hi Hb]]]].
           exists sp', fa', ba'. split; [now right|easy].
      * destruct (store_loop w1 items s (f + 1)) as [[evs1 c1] w2] eqn:Hl.
        intros H; inversion H; subst. intros [Hin|Hin]; [discriminate|].
        destruct (IH _ _ _ _ Hl Hin) as [sp' [fa' [ba' [Hi Hb]]]].
        exists sp', fa', ba'. split; [now right|easy].
    + destruct (store_loop w items s (f + 1)) as [[evs1 c1] w2] eqn:Hl.
      intros H; inversion H; subst. intros [Hin|Hin]; [discriminate|].
      destruct (IH _ _ _ _ Hl Hin) as [sp' [fa' [ba' [Hi Hb]]]].
      exists sp', fa', ba'. split; [now right|easy].
Qed.

(** X7: [store_alignments] handles as many pairs as the shortest of its
    three lists has entries and counts each of them once, as stored or as
    failed: a pair that fails does not stop the ones after it, and the
    pairs beyond the shortest list are counted nowhere. *)
Theorem store_alignments_counts_each_pair (w w' : World)
  (sentence_pairs : list SentencePair)
  (forward_alignments backward_alignments : list (list (Z * Z)))
  (evs : list Event) (successful failed_count : Z) :
  store_alignments w sentence_pairs forward_alignments backward_alignments
  = (evs, (successful, failed_count), w') ->
  successful + failed_count
  = Z.of_nat (Nat.min (Nat.min (length sentence_pairs)
                               (length forward_alignments))
                      (length backward_alignments))
  /\ 0 <= successful /\ 0 <= failed_count
  /\ length evs
     = Nat.min (Nat.min (length sentence_pairs) (length forward_alignments))
               (length backward_alignments).
Proof.
  unfold store_alignments, zip3. intros H.
  apply store_loop_total in H as [H1 [H2 [H3 H4]]].
  rewrite !length_combine in H1, H2. repeat split; lia.
Qed.

(** X8: a record is only ever inserted for a pair of the batch, with the
    forward and the backward alignment at the pair's own position in the
    two parsed lists, and it carries the pair's two sentence identifiers,
    the method name [fast_align] and the backward alignment with each
    entry swapped to source-first order. *)
Theorem store_alignments_positional (w w' : World)
  (sentence_pairs : list SentencePair)
  (forward_alignments backward_alignments : list (list (Z * Z)))
  (evs : list Event) (counts : Z * Z) (r : AlignmentRecord) :
  store_alignments w sentence_pairs forward_alignments backward_alignments
  = (evs, counts, w') ->
  In (EvInsert r) evs ->
  exists k sp fa ba,
    nth_error sentence_pairs k = Some sp
    /\ nth_error forward_alignments k = Some fa
    /\ nth_error backward_alignments k = Some ba
    /\ build_record sp fa ba = Ok r
    /\ rec_purepecha_sentence_id r = purepecha_sentence_id sp
    /\ rec_spanish_sentence_id r = spanish_sentence_id sp
    /\ alignment_method r = lit "fast_align"
    /\ backward (word_alignments r) = map (fun a => (snd a, fst a)) ba.
Proof.
  unfold store_alignments, zip3. intros H Hin.
  destruct (store_loop_origin _ _ _ _ _ H Hin) as [sp [fa [ba [Hi Hb]]]].
  apply In_nth_error in Hi as [k Hk].
  apply nth_error_combine_inv in Hk as [Hk Hba].
  apply nth_error_combine_inv in Hk as [Hsp Hfa].
  exists k, sp, fa, ba.
  destruct (build_record_identity _ _ _ Hb) as [H1 [H2 [H3 H4]]].
  repeat (split; [assumption|]).
  rewrite H4. unfold backward_entries. apply map_ext. now intros [t s0].
Qed.

End Storing.

(** Two pairs and a forward list of one entry: one pair is handled. *)
Lemma store_alignments_counts_each_pair_witness :
  exists evs successful failed_count,
    fst (store_alignments (ext := Scripted.spec_world) []
           [Scripted.spec_pair; Scripted.noise_pair]
           [[(0, 0)]] [[(0, 0)]; []])
    = (evs, (successful, failed_count))
    /\ successful + failed_count = 1
    /\ length evs = 1%nat.
Proof.
  destruct (store_alignments (ext := Scripted.spec_world) []
              [Scripted.spec_pair; Scripted.noise_pair]
              [[(0, 0)]] [[(0, 0)]; []])
    as [[evs [successful failed_count]] w'] eqn:E.
  exists evs, successful, failed_count.
  destruct (store_alignments_counts_each_pair _ _ _ _ E)
    as [Hsum [_ [_ Hlen]]].
  split; [reflexivity|]. split; [exact Hsum|exact Hlen].
Defined.

Lemma store_alignments_positional_witness :
  exists r k sp,
    Scripted.first_inserted
      (fst (fst (store_alignments (ext := Scripted.spec_world) []
                   [Scripted.noise_pair; Scripted.spec_pair]
                   [[(-9, 0)]; [(0, 0)]] [[]; [(1, 2)]]))) = Some r
    /\ nth_error [Scripted.noise_pair; Scripted.spec_pair] k = Some sp
    /\ rec_purepecha_sentence_id r = purepecha_sentence_id sp
    /\ backward (word_alignments r) = [(2, 1)].
Proof.
  destruct (store_alignments (ext := Scripted.spec_world) []
              [Scripted.noise_pair; Scripted.spec_pair]
              [[(-9, 0)]; [(0, 0)]] [[]; [(1, 2)]])
    as [[evs counts] w'] eqn:E.
  destruct (Scripted.first_inserted evs) as [r|] eqn:Hr.
  - destruct (store_alignments_positional _ _ _ _ _ E (first_inserted_In _ Hr))
      as [k [sp [fa [ba [Hsp [Hfa [Hba [_ [Hid [_ [_ Hbw]]]]]]]]]]].
    exists r, k, sp. split; [exact Hr|]. split; [exact Hsp|].
    split; [exact Hid|].
    vm_compute in E. inversion E; subst. clear E.
    vm_compute in Hr. inversion Hr; subst. reflexivity.
  - vm_compute in E. inversion E; subst. discriminate.
Defined.

Section StoringParsed.

Context {World : Type} {ext : External World}.

Hypothesis insertion_succeeds :
  forall w r, exists w', insert_alignment w r = (Ok tt, w').

Lemma store_loop_all_stored (items : list (SentencePair * list (Z * Z)
                                           * list (Z * Z)))
  (w w' : World) (s f s' f' : Z) (evs : list Event) :
  (forall sp fa ba, In (sp, fa, ba) items ->
     exists r, build_record sp fa ba = Ok r) ->
  store_loop w items s f = (evs, (s', f'), w') ->
  f' = f /\ s' = s + Z.of_nat (length items)
  /\ forallb is_insert evs = true.
Proof.
  revert w s f evs; induction items as [|[[sp fa] ba] items IH];
    intros w s f evs Hbuilt; cbn [store_loop].
  - intros H; inversion H; subst. cbn. repeat split; lia.
  - destruct (Hbuilt sp fa ba (or_introl eq_refl)) as [r Hr]. rewrite Hr.
    destruct (insertion_succeeds w r) as [w1 Hins]. rewrite Hins.
    destruct (store_loop w1 items (s + 1) f) as [[evs1 c1] w2] eqn:Hl.
    intros H; inversion H; subst.
    destruct (IH _ _ _ _ (fun sp' fa' ba' Hin =>
                            Hbuilt sp' fa' ba' (or_intror Hin)) Hl)
      as [H1 [H2 H3]].
    cbn [length forallb is_insert andb]. repeat split; try assumption. lia.
Qed.

(** X15: when the database accepts every insertion, [store_alignments]
    given forward alignments that come from the parser stores every pair
    it handles: none is counted failed, whatever indices the aligner
    wrote, and every event is an insertion. *)
Theorem store_parsed_all_stored (content : str) (w w' : World)
  (sentence_pairs : list SentencePair)
  (forward_alignments backward_alignments : list (list (Z * Z)))
  (evs : list Event) (successful failed_count : Z) :
  parse_alignment_output content = Ok forward_alignments ->
  store_alignments w sentence_pairs forward_alignments backward_alignments
  = (evs, (successful, failed_count), w') ->
  failed_count = 0
  /\ successful
     = Z.of_nat (Nat.min (Nat.min (length sentence_pairs)
                                  (length forward_alignments))
                         (length backward_alignments))
  /\ forallb is_insert evs = true.
Proof.
  intros Hparse H. unfold store_alignments, zip3 in H.
  apply store_loop_all_stored in H.
  - destruct H as [H1 [H2 H3]]. rewrite !length_combine in H2.
    repeat split; try assumption; lia.
  - intros sp fa ba Hin. apply in_combine_l, in_combine_r in Hin.
    destruct (@parsed_alignment_builds_record_aux
                content forward_alignments fa ba sp Hparse Hin)
      as [r [Hr _]].
    now exists r.
Qed.

End StoringParsed.

Lemma store_parsed_all_stored_witness :
  exists evs successful,
    fst (store_alignments (ext := Scripted.spec_world) []
           [Scripted.spec_pair; Scripted.noise_pair]
           [[(0, 0); (7, 7)]; [(5, 5)]] [[]; []])
    = (evs, (successful, 0))
    /\ successful = 2.
Proof.
  destruct (store_alignments (ext := Scripted.spec_world) []
              [Scripted.spec_pair; Scripted.noise_pair]
              [[(0, 0); (7, 7)]; [(5, 5)]] [[]; []])
    as [[evs [successful failed_count]] w'] eqn:E.
  destruct (@store_parsed_all_stored
              _ Scripted.spec_world
              (fun w r => ex_intro _ w eq_refl)
              (lit "0-0 7-7" ++ [newline] ++ lit "5-5") _ _ _ _ _ _ _ _
              eq_refl E)
    as [Hf [Hs _]].
  subst failed_count. exists evs, successful.
  split; [reflexivity|exact Hs].
Defined.

(** ** What the score depends on *)

Lemma aligned_src_same_sources (a b : list (Z * Z)) :
  incl (map fst a) (map fst b) -> incl (map fst b) (map fst a) ->
  aligned_src a = aligned_src b.
Proof.
  intros Hab Hba. unfold aligned_src. f_equal. apply Nat.le_antisymm;
    apply NoDup_incl_length; try apply NoDup_nodup;
    intros x Hx; apply nodup_In; apply nodup_In in Hx; auto.
Qed.

(** X9: the score looks at a forward alignment only through the number of
    its entries and the set of its source indices: two alignments of the
    same length with the same source indices get the same score, whatever
    their target indices and their order. *)
Theorem score_depends_on_sources_only (a b : list (Z * Z))
  (src_length tgt_length : Z) :
  length a = length b ->
  incl (map fst a) (map fst b) -> incl (map fst b) (map fst a) ->
  calculate_alignment_score a src_length tgt_length
  = calculate_alignment_score b src_length tgt_length.
Proof.
  intros Hlen Hab Hba.
  pose proof (@aligned_src_same_sources a b Hab Hba) as Hsrc.
  destruct a as [|x a], b as [|y b]; try discriminate; [reflexivity|].
  unfold calculate_alignment_score. now rewrite Hsrc, Hlen.
Qed.

Lemma score_depends_on_sources_only_witness :
  calculate_alignment_score [(0, 0); (1, 1); (1, 2)] 3 3
  = calculate_alignment_score [(1, 7); (0, 9); (0, 0)] 3 3.
Proof.
  apply score_depends_on_sources_only; [reflexivity| |];
    intros x Hx; cbn in *; tauto.
Defined.

(** ** The batch cap, the batch numbers and the ledger of a run *)

Lemma batch_events_no_batch (t : list Event) :
  Forall batch_event t -> batch_numbers t = [] /\ pairs_fetched t = 0.
Proof.
  induction 1 as [|ev t Hev _ [IH1 IH2]]; [easy|].
  cbn [batch_numbers flat_map pairs_fetched fold_right] in *.
  destruct ev; try contradiction; now rewrite ?IH1, ?IH2.
Qed.

Lemma pairs_fetched_app (a b : list Event) :
  pairs_fetched (a ++ b) = pairs_fetched a + pairs_fetched b.
Proof.
  unfold pairs_fetched. induction a as [|ev a IH]; [reflexivity|].
  cbn [app fold_right]. destruct ev; rewrite ?IH; lia.
Qed.

Lemma batch_numbers_app (a b : list Event) :
  batch_numbers (a ++ b) = batch_numbers a ++ batch_numbers b.
Proof. apply flat_map_app. Qed.

Section Ledger.

Context {World : Type} {ext : External World}.
Variable batch_size : Z.

Lemma run_loop_zero_cap (fuel : nat) (st : RunState) :
  run_loop batch_size (Some 0) fuel st = run_loop batch_size None fuel st.
Proof.
  revert st; induction fuel as [|fuel IH]; intros st; cbn [run_loop];
    [reflexivity|].
  change (loop_iteration batch_size (Some 0) st)
    with (loop_iteration batch_size None st).
  destruct (loop_iteration batch_size None st) as [evs [st'|st'|e st']];
    reflexivity.
Qed.

(** X10: the two edge values of the batch cap.  A cap of zero is no cap at
    all: the run is the one without cap.  A negative cap ends the run
    before the database is asked for anything: the run is started and
    completed at once. *)
Theorem max_batches_edge_values :
  (forall fuel (w : World),
      run_pipeline batch_size (Some 0) fuel w
      = run_pipeline batch_size None fuel w)
  /\ (forall m fuel (w : World),
        m < 0 ->
        run_pipeline batch_size (Some m) (S fuel) w
        = ([EvStart; EvComplete completed],
           Finished (finalize (initial_state w)))).
Proof.
  split.
  - intros fuel w. unfold run_pipeline. now rewrite run_loop_zero_cap.
  - intros m fuel w Hm. unfold run_pipeline. cbn [run_loop].
    unfold loop_iteration. cbn [initial_state batch_num cap_reached].
    replace (negb (m =? 0) && (m <=? 0)) with true; [reflexivity|].
    symmetry. apply andb_true_iff. split.
    + apply negb_true_iff, Z.eqb_neq. lia.
    + apply Z.leb_le. lia.
Qed.

Variable max_batches : option Z.

(** What a batch does to the books: the batch number stays, the two
    totals grow by amounts that together are at most the size of the
    batch, and the tracker is left alone or given the new totals. *)
Lemma batch_case_ledger (st1 : RunState) (pairs : list SentencePair)
  (evs : list Event) (step : Step) :
  BatchCase st1 pairs evs step ->
  batch_num (step_state step) = batch_num st1
  /\ total_aligned st1 <= total_aligned (step_state step)
  /\ total_failed st1 <= total_failed (step_state step)
  /\ (total_aligned (step_state step) - total_aligned st1)
     + (total_failed (step_state step) - total_failed st1)
     <= Z.of_nat (length pairs)
  /\ (tracker (step_state step) = tracker st1
      \/ tracker (step_state step)
         = update_progress (tracker st1)
             (total_aligned (step_state step)
              + total_failed (step_state step))
             (total_aligned (step_state step))
             (total_failed (step_state step))).
Proof.
  intros H; destruct H;
    cbn [step_state set_world count_failed record_batch batch_num
         total_aligned total_failed tracker];
    try (repeat split; try lia; now left).
  unfold store_alignments, zip3 in Hs.
  apply store_loop_total in Hs as [H1 [_ [H3 H4]]].
  rewrite !length_combine in H1.
  repeat split; try lia. now right.
Qed.

Lemma iter_case_ledger (st : RunState) (evs : list Event) (step : Step) :
  IterCase batch_size max_batches st evs step ->
  (batch_numbers evs = [] /\ (forall st', step <> Continue st')
   \/ batch_numbers evs = [batch_num st + 1]
      /\ batch_num (step_state step) = batch_num st + 1)
  /\ batch_num st <= batch_num (step_state step)
  /\ (forall m, max_batches = Some m -> 0 < m -> batch_num st <= m ->
        batch_num (step_state step) <= m)
  /\ (forall fetched, books_in_order fetched st ->
        books_in_order (fetched + pairs_fetched evs) (step_state step)).
Proof.
  assert (Hcapped : forall m, max_batches = Some m -> 0 < m ->
                      cap_reached max_batches (batch_num st) = false ->
                      batch_num st + 1 <= m).
  { intros m -> Hm Hcap. cbn [cap_reached] in Hcap.
    apply andb_false_iff in Hcap as [Hcap|Hcap].
    - apply negb_false_iff, Z.eqb_eq in Hcap. lia.
    - apply Z.leb_gt in Hcap. lia. }
  intros [Hcap|w1 Hcap Hfetch|sp pairs w1 tail step' Hcap Hfetch Hbatch].
  - cbn. split; [left; split; [reflexivity|discriminate]|].
    split; [lia|]. split; [auto|].
    unfold books_in_order. intros fetched H. lia.
  - cbn. split; [left; split; [reflexivity|discriminate]|].
    split; [lia|]. split; [intros m Hm Hpos _; now apply Hcapped|].
    unfold books_in_order. cbn. intros fetched H. lia.
  - pose proof (batch_case_events Hbatch) as [Hev _].
    apply batch_events_no_batch in Hev as [Hnum Hfetched].
    apply batch_case_ledger in Hbatch as [Hn [Ha [Hf [Hsum Htr]]]].
    cbn [begin_batch batch_num total_aligned total_failed tracker] in *.
    change (EvBatch (batch_num st + 1) (sp :: pairs) :: tail)
      with ([EvBatch (batch_num st + 1) (sp :: pairs)] ++ tail).
    rewrite batch_numbers_app, pairs_fetched_app, Hnum, Hfetched, Hn.
    split; [right; split; reflexivity|].
    split; [lia|]. split; [intros m Hm Hpos _; now apply Hcapped|].
    unfold books_in_order. intros fetched H.
    change (pairs_fetched [EvBatch (batch_num st + 1) (sp :: pairs)])
      with (Z.of_nat (length (sp :: pairs)) + 0).
    destruct Htr as [-> | ->]; cbn [update_progress items_processed
                                    items_succeeded items_failed]; lia.
Qed.

(** The books of the loop. *)
Lemma run_loop_ledger (fuel : nat) (st : RunState) (evs : list Event)
  (o : Outcome) :
  run_loop batch_size max_batches fuel st = (evs, o) ->
  counts_from (batch_num st + 1) (batch_numbers evs)
  /\ batch_num st + Z.of_nat (length (batch_numbers evs))
     <= batch_num (final_state o)
  /\ (forall m, max_batches = Some m -> 0 < m -> batch_num st <= m ->
        batch_num (final_state o) <= m)
  /\ (forall fetched, books_in_order fetched st ->
        books_in_order (fetched + pairs_fetched evs) (final_state o)).
Proof.
  revert st evs o; induction fuel as [|fuel IH]; intros st evs o;
    cbn [run_loop].
  - intros H; inversion H; subst. cbn. split; [exact I|].
    split; [lia|]. split; [auto|].
    intros fetched Hb. now rewrite Z.add_0_r.
  - destruct (loop_iteration batch_size max_batches st) as [bevs step] eqn:E.
    apply loop_iteration_inv, iter_case_ledger in E
      as [Hnum [Hmono [Hcap Hbooks]]].
    assert (Hend : counts_from (batch_num st + 1) (batch_numbers bevs)
                   /\ batch_num st + Z.of_nat (length (batch_numbers bevs))
                      <= batch_num (step_state step)).
    { destruct Hnum as [[-> _]|[-> Hn]]; cbn; [split; [exact I|lia]|].
      split; [auto|lia]. }
    destruct step as [st'|st'|e st']; cbn [step_state] in *.
    + intros H; inversion H; subst. cbn [final_state].
      destruct Hend as [Hc Hlen]. split; [exact Hc|]. split; [exact Hlen|].
      split; [exact Hcap|exact Hbooks].
    + destruct (run_loop batch_size max_batches fuel st') as [evs' o']
        eqn:Hl.
      intros H; inversion H; subst.
      destruct (IH _ _ _ Hl) as [I1 [I2 [I3 I4]]].
      destruct Hnum as [[_ Hno]|[Hb Hn]]; [now destruct (Hno st')|].
      rewrite batch_numbers_app, pairs_fetched_app, Hb.
      cbn [app counts_from length]. rewrite Hn in I1, I2.
      split; [split; [reflexivity|exact I1]|]. split; [lia|]. split.
      * intros m Hm Hpos Hle. apply (I3 m Hm Hpos). now apply (Hcap m).
      * intros fetched Hbk. rewrite Z.add_assoc. apply I4. now apply Hbooks.
    + intros H; inversion H; subst. cbn [final_state].
      destruct Hend as [Hc Hlen]. split; [exact Hc|]. split; [exact Hlen|].
      split; [exact Hcap|exact Hbooks].
Qed.

Lemma initial_books (w : World) : books_in_order 0 (initial_state w).
Proof. unfold books_in_order. cbn. lia. Qed.

(** X11: the batches of a run are numbered one, two, three and so on, in
    the order they are opened; with a positive batch cap no more batches
    are opened than the cap, and the batch counter never passes it. *)
Theorem batches_are_numbered_and_capped (fuel : nat) (w : World)
  (evs : list Event) (o : Outcome) :
  run_pipeline batch_size max_batches fuel w = (evs, o) ->
  counts_from 1 (batch_numbers evs)
  /\ Z.of_nat (length (batch_numbers evs)) <= batch_num (final_state o)
  /\ (forall m, max_batches = Some m -> 0 < m ->
        Z.of_nat (length (batch_numbers evs)) <= m
        /\ batch_num (final_state o) <= m).
Proof.
  unfold run_pipeline.
  destruct (run_loop batch_size max_batches fuel (initial_state w))
    as [levs lo] eqn:Hl.
  destruct (run_loop_ledger _ _ Hl) as [Hc [Hn [Hcap _]]].
  cbn [initial_state batch_num] in Hc, Hn, Hcap.
  intros Hrun.
  assert (Hsame : batch_numbers evs = batch_numbers levs
                  /\ batch_num (final_state o) = batch_num (final_state lo)).
  { destruct lo; inversion Hrun; subst; cbn [batch_numbers flat_map app];
      fold (batch_numbers levs); rewrite ?flat_map_app; cbn;
      rewrite ?app_nil_r; split; reflexivity. }
  destruct Hsame as [-> ->]. split; [exact Hc|]. split; [lia|].
  intros m Hm Hpos. specialize (Hcap m Hm Hpos ltac:(lia)). lia.
Qed.

(** X12: the ledger of a run.  Whatever happened, the two totals are not
    negative and together never exceed the number of pairs fetched; the
    tracker's processed count is the sum of its two other counts, and the
    tracker never holds more successes or more failures than the loop
    counted. *)
Theorem run_ledger (fuel : nat) (w : World) (evs : list Event)
  (o : Outcome) :
  run_pipeline batch_size max_batches fuel w = (evs, o) ->
  0 <= total_aligned (final_state o)
  /\ 0 <= total_failed (final_state o)
  /\ total_aligned (final_state o) + total_failed (final_state o)
     <= pairs_fetched evs
  /\ items_processed (tracker (final_state o))
     = items_succeeded (tracker (final_state o))
       + items_failed (tracker (final_state o))
  /\ items_succeeded (tracker (final_state o))
     <= total_aligned (final_state o)
  /\ items_failed (tracker (final_state o))
     <= total_failed (final_state o).
Proof.
  unfold run_pipeline.
  destruct (run_loop batch_size max_batches fuel (initial_state w))
    as [levs lo] eqn:Hl.
  destruct (run_loop_ledger _ _ Hl) as [_ [_ [_ Hbooks]]].
  specialize (Hbooks 0 (initial_books w)). cbn [Z.add] in Hbooks.
  intros Hrun.
  assert (Hsame : pairs_fetched evs = pairs_fetched levs).
  { destruct lo; inversion Hrun; subst;
      change (EvStart :: ?t) with ([EvStart] ++ t);
      rewrite ?pairs_fetched_app; cbn; lia. }
  rewrite Hsame. unfold books_in_order in Hbooks.
  destruct lo; inversion Hrun; subst;
    cbn [final_state finalize total_aligned total_failed tracker
         complete_run items_processed items_succeeded items_failed] in *;
    exact Hbooks.
Qed.

End Ledger.

Lemma max_batches_edge_values_witness :
  run_pipeline (ext := Scripted.spec_world) 1000 (Some (-1)) 1
    [[Scripted.spec_pair]]
  = ([EvStart; EvComplete completed],
     Finished (finalize (initial_state [[Scripted.spec_pair]]))).
Proof.
  apply (proj2 (max_batches_edge_values (ext := Scripted.spec_world) 1000)).
  reflexivity.
Defined.

(** Three batches in the database and a cap of two. *)
Lemma batches_are_numbered_and_capped_witness :
  counts_from 1
    (batch_numbers
       (fst (run_pipeline (ext := Scripted.spec_world) 1000 (Some 2) 9
               [[Scripted.spec_pair]; [Scripted.noise_pair];
                [Scripted.spec_pair]])))
  /\ Z.of_nat
       (length
          (batch_numbers
             (fst (run_pipeline (ext := Scripted.spec_world) 1000 (Some 2) 9
                     [[Scripted.spec_pair]; [Scripted.noise_pair];
                      [Scripted.spec_pair]])))) <= 2.
Proof.
  destruct (@batches_are_numbered_and_capped
              _ Scripted.spec_world 1000 (Some 2) 9
              [[Scripted.spec_pair]; [Scripted.noise_pair];
               [Scripted.spec_pair]] _ _ (surjective_pairing _))
    as [Hcount [_ Hcap]].
  destruct (Hcap 2 eq_refl ltac:(lia)) as [Hlen _].
  split; [exact Hcount|exact Hlen].
Defined.

Example capped_run_batch_numbers :
  batch_numbers
    (fst (run_pipeline (ext := Scripted.spec_world) 1000 (Some 2) 9
            [[Scripted.spec_pair]; [Scripted.noise_pair];
             [Scripted.spec_pair]]))
  = [1; 2].
Proof. vm_compute. reflexivity. Qed.

(** A batch of two pairs whose forward output has one line only. *)
Lemma run_ledger_witness :
  exists evs st,
    run_pipeline
      (ext := Scripted.ext (Scripted.exits 0 "0-0") (Scripted.exits 0 "0-0")
                (Ok tt))
      1000 None 5 [[Scripted.spec_pair; Scripted.noise_pair]]
    = (evs, Finished st)
    /\ pairs_fetched evs = 2
    /\ total_aligned st + total_failed st <= 2
    /\ total_aligned st + total_failed st = 1.
Proof.
  destruct (run_pipeline
              (ext := Scripted.ext (Scripted.exits 0 "0-0")
                        (Scripted.exits 0 "0-0") (Ok tt))
              1000 None 5 [[Scripted.spec_pair; Scripted.noise_pair]])
    as [evs o] eqn:E.
  destruct (run_ledger _ _ _ _ E) as [_ [_ [Hsum _]]].
  vm_compute in E. inversion E; subst. clear E.
  eexists _, _. split; [reflexivity|]. split; [reflexivity|].
  split; [exact Hsum|reflexivity].
Defined.

(** ** A loop that does not end *)

Section Stuck.

Context {World : Type} {ext : External World}.
Variable batch_size : Z.
Variable max_batches : option Z.

Hypothesis no_cap : max_batches = None \/ max_batches = Some 0.
Hypothesis always_pairs :
  forall w, exists sp pairs w',
    get_unaligned_sentence_pairs w batch_size = (sp :: pairs, w').
Hypothesis forward_fails :
  forall w input, exists rc out err w',
    fast_align_process w input false = (Exited rc out err, w') /\ rc <> 0.

Lemma stuck_iteration (st : RunState) :
  exists evs st',
    loop_iteration batch_size max_batches st = (evs, Continue st')
    /\ forallb (fun ev => negb (is_insert ev) && negb (is_progress ev)) evs
       = true
    /\ batch_num st' = batch_num st + 1
    /\ total_failed st + 1 <= total_failed st'
    /\ total_aligned st' = total_aligned st
    /\ tracker st' = tracker st.
Proof.
  unfold loop_iteration.
  assert (Hcap : cap_reached max_batches (batch_num st) = false)
    by (destruct no_cap as [-> | ->]; reflexivity).
  rewrite Hcap.
  destruct (always_pairs (world st)) as [sp [pairs [w1 Hfetch]]].
  rewrite Hfetch. unfold run_fast_align.
  destruct (forward_fails w1 (prepare_alignment_input (sp :: pairs)))
    as [rc [out [err [w2 [Hrun Hrc]]]]].
  rewrite Hrun. cbn [run_fast_align_on].
  apply Z.eqb_neq in Hrc. rewrite Hrc.
  eexists _, _. split; [reflexivity|].
  cbn [count_failed set_world begin_batch batch_num total_failed
       total_aligned tracker length]. repeat split; try reflexivity. lia.
Qed.

(** X13: with no batch cap, a database that always has a batch to hand
    out and an aligner whose forward invocation always exits with a
    non-zero status, [run_pipeline] does not end: after any number of
    turns the loop is still running, it has opened one batch per turn and
    counted its pairs failed, it has inserted no record and it has never
    updated the tracker. *)
Theorem failing_aligner_never_ends (fuel : nat) (w : World) :
  exists evs st,
    run_pipeline batch_size max_batches fuel w = (EvStart :: evs, OutOfFuel st)
    /\ batch_num st = Z.of_nat fuel
    /\ Z.of_nat fuel <= total_failed st
    /\ total_aligned st = 0
    /\ tracker st = start_run
    /\ records_inserted evs = 0
    /\ forallb (fun ev => negb (is_progress ev)) evs = true.
Proof.
  assert (Hloop : forall fuel st,
             exists evs st',
               run_loop batch_size max_batches fuel st = (evs, OutOfFuel st')
               /\ batch_num st' = batch_num st + Z.of_nat fuel
               /\ total_failed st + Z.of_nat fuel <= total_failed st'
               /\ total_aligned st' = total_aligned st
               /\ tracker st' = tracker st
               /\ forallb (fun ev => negb (is_insert ev)
                                     && negb (is_progress ev)) evs = true).
  { clear fuel w. induction fuel as [|fuel IH]; intros st; cbn [run_loop].
    - exists [], st. repeat split; cbn; lia.
    - destruct (stuck_iteration st)
        as [bevs [st1 [Hit [Hq [Hn [Hf [Ha Ht]]]]]]].
      rewrite Hit.
      destruct (IH st1) as [evs [st' [Hl [Hn' [Hf' [Ha' [Ht' Hq']]]]]]].
      rewrite Hl. exists (bevs ++ evs), st'.
      split; [reflexivity|]. rewrite forallb_app, Hq, Hq'.
      repeat split; try congruence; lia. }
  destruct (Hloop fuel (initial_state w))
    as [evs [st [Hl [Hn [Hf [Ha [Ht Hq]]]]]]].
  exists evs, st. unfold run_pipeline. rewrite Hl.
  cbn [initial_state batch_num total_failed total_aligned tracker]
    in Hn, Hf, Ha, Ht.
  split; [reflexivity|]. repeat (split; [assumption || lia|]).
  split; [now apply quiet_events with (c := 0)|].
  rewrite forallb_forall in *. intros ev Hev. specialize (Hq ev Hev).
  now apply andb_true_iff in Hq.
Qed.

End Stuck.

Lemma failing_aligner_never_ends_witness :
  exists evs st,
    run_pipeline (ext := Stuck.ext) 1000 None 3 tt
    = (EvStart :: evs, OutOfFuel st)
    /\ batch_num st = 3
    /\ 3 <= total_failed st
    /\ records_inserted evs = 0.
Proof.
  assert (Hpairs : forall w : unit, exists sp pairs w',
             get_unaligned_sentence_pairs (External := Stuck.ext) w 1000
             = (sp :: pairs, w')).
  { intros w. exists Scripted.spec_pair, [], tt. reflexivity. }
  assert (Hfails : forall (w : unit) input, exists rc out err w',
             fast_align_process (External := Stuck.ext) w input false
             = (Exited rc out err, w') /\ rc <> 0).
  { intros w input. exists 1, [newline], (lit "fast_align: log"), tt.
    split; [reflexivity|discriminate]. }
  destruct (@failing_aligner_never_ends
              unit Stuck.ext 1000 None (or_introl eq_refl) Hpairs Hfails
              3%nat tt)
    as [evs [st [Hrun [Hn [Hf [_ [_ [Hi _]]]]]]]].
  exists evs, st. split; [exact Hrun|]. split; [exact Hn|].
  split; [exact Hf|exact Hi].
Defined.
